(** * Shallow embedding of the fantasy-znldn scrapers (demo_scraper.py, scraper.py)

    Python text is modelled as a list of characters (UTF-8 bytes as [ascii]);
    Python's [re] module as a backtracking, leftmost-first matcher written in
    continuation-passing style; the BeautifulSoup tree as a rose tree whose
    positions are paths, document order being pre-order. *)

From Stdlib Require Import String Ascii List Bool Arith Lia ZArith.
Import ListNotations.

Open Scope list_scope.

(** ** Python strings *)

Abbreviation text := (list ascii).

Definition s_ (s : string) : text := list_ascii_of_string s.

(** [str.isspace] restricted to one-byte characters: \t \n \v \f \r,
    the separators \x1c..\x1f and the space. *)
Definition is_space (c : ascii) : bool :=
  let n := nat_of_ascii c in
  ((9 <=? n) && (n <=? 13)) || ((28 <=? n) && (n <=? 32)).

Definition is_digit (c : ascii) : bool :=
  let n := nat_of_ascii c in (48 <=? n) && (n <=? 57).

Definition digit_val (c : ascii) : Z := Z.of_nat (nat_of_ascii c - 48).

Definition ch_eqb (a b : ascii) : bool := Ascii.eqb a b.

Definition text_eqb (a b : text) : bool := if list_eq_dec ascii_dec a b then true else false.

(** [str.lstrip()] / [str.rstrip()] / [str.strip()] *)
Fixpoint lstrip (s : text) : text :=
  match s with
  | [] => []
  | c :: s' => if is_space c then lstrip s' else s
  end.

Definition rstrip (s : text) : text := rev (lstrip (rev s)).

Definition strip (s : text) : text := rstrip (lstrip s).

(** [str.split()] without arguments: maximal runs of non-space characters. *)
Fixpoint split_ws_aux (cur : text) (s : text) : list text :=
  match s with
  | [] => match cur with [] => [] | _ => [rev cur] end
  | c :: s' =>
      if is_space c
      then match cur with
           | [] => split_ws_aux [] s'
           | _ => rev cur :: split_ws_aux [] s'
           end
      else split_ws_aux (c :: cur) s'
  end.

Definition py_split (s : text) : list text := split_ws_aux [] s.

(** [sep.join(xs)] *)
Fixpoint py_join (sep : text) (xs : list text) : text :=
  match xs with
  | [] => []
  | [x] => x
  | x :: xs' => x ++ sep ++ py_join sep xs'
  end.

(** [str.isdigit()] on one-byte characters. *)
Definition py_isdigit (s : text) : bool :=
  match s with [] => false | _ => forallb is_digit s end.

Fixpoint starts_with (pre s : text) : bool :=
  match pre, s with
  | [], _ => true
  | c :: pre', d :: s' => ch_eqb c d && starts_with pre' s'
  | _ :: _, [] => false
  end.

(** [needle in hay] *)
Fixpoint contains (needle hay : text) : bool :=
  starts_with needle hay ||
  match hay with [] => false | _ :: hay' => contains needle hay' end.

(** [str.lower()] on one-byte characters *)
Definition lower_ch (c : ascii) : ascii :=
  let n := nat_of_ascii c in
  if (65 <=? n) && (n <=? 90) then ascii_of_nat (n + 32) else c.

Definition py_lower (s : text) : text := map lower_ch s.

(** [int(s)]: surrounding whitespace, an optional sign, decimal digits with
    single underscores between digits. *)
Fixpoint dec_us (prev_digit : bool) (acc : Z) (s : text) : option Z :=
  match s with
  | [] => if prev_digit then Some acc else None
  | c :: s' =>
      if is_digit c then dec_us true (acc * 10 + digit_val c)%Z s'
      else if ch_eqb c "_"%char && prev_digit then dec_us false acc s'
      else None
  end.

Definition py_int (s : text) : option Z :=
  match strip s with
  | c :: r =>
      if ch_eqb c "+"%char then dec_us false 0 r
      else if ch_eqb c "-"%char then option_map Z.opp (dec_us false 0 r)
      else dec_us false 0 (c :: r)
  | [] => None
  end.

(** Python exceptions that the scrapers can raise, and computations that
    may raise them. *)
Inductive exn :=
| RuntimeError (msg : text)
| IndexError
| ValueError
| AttributeError.

Inductive result (A : Type) :=
| Ok (a : A)
| Raise (e : exn).
Arguments Ok {A} a.
Arguments Raise {A} e.

Definition bind {A B} (m : result A) (f : A -> result B) : result B :=
  match m with Ok a => f a | Raise e => Raise e end.

Notation "x <- m ;; f" := (bind m (fun x => f))
  (at level 61, m at next level, right associativity).

(** [xs[i]] for a non-negative index *)
Definition py_index {A} (xs : list A) (i : nat) : result A :=
  match nth_error xs i with Some x => Ok x | None => Raise IndexError end.

(** ** Python regular expressions

    Character classes, greedy and lazy stars over a class, sequencing and
    numbered capture groups: enough for every pattern of the two scrapers.
    [mt r s caps k] tries [r] on [s] in Python's backtracking order and
    passes the remaining input to the continuation [k]. *)

Inductive regex :=
| RCls (p : ascii -> bool)
| RStar (greedy : bool) (p : ascii -> bool)
| RSeq (r1 r2 : regex)
| RGroup (n : nat) (r : regex).

Definition caps := list (nat * text).
Definition cont := text -> caps -> option caps.

Fixpoint star_greedy (p : ascii -> bool) (s : text) (c : caps) (k : cont)
  : option caps :=
  match s with
  | [] => k [] c
  | x :: s' =>
      if p x then
        match star_greedy p s' c k with
        | Some r => Some r
        | None => k s c
        end
      else k s c
  end.

Fixpoint star_lazy (p : ascii -> bool) (s : text) (c : caps) (k : cont)
  : option caps :=
  match k s c with
  | Some r => Some r
  | None =>
      match s with
      | x :: s' => if p x then star_lazy p s' c k else None
      | [] => None
      end
  end.

Fixpoint mt (r : regex) (s : text) (c : caps) (k : cont) : option caps :=
  match r with
  | RCls p => match s with x :: s' => if p x then k s' c else None | [] => None end
  | RStar true p => star_greedy p s c k
  | RStar false p => star_lazy p s c k
  | RSeq r1 r2 => mt r1 s c (fun s' c' => mt r2 s' c' k)
  | RGroup n r =>
      mt r s c (fun s' c' => k s' ((n, firstn (length s - length s') s) :: c'))
  end.

(** [re.match] (anchored at the start), [re.fullmatch], [re.search]
    (leftmost start; also returns the start offset, [m.start()]). *)
Definition re_match (r : regex) (s : text) : option caps :=
  mt r s [] (fun _ c => Some c).

Definition re_fullmatch (r : regex) (s : text) : option caps :=
  mt r s [] (fun s' c => match s' with [] => Some c | _ => None end).

Fixpoint re_search_from (r : regex) (i : nat) (s : text) : option (nat * caps) :=
  match re_match r s with
  | Some c => Some (i, c)
  | None => match s with [] => None | _ :: s' => re_search_from r (S i) s' end
  end.

Definition re_search (r : regex) (s : text) := re_search_from r 0 s.

Definition group (n : nat) (c : caps) : text :=
  match find (fun p => Nat.eqb (fst p) n) c with
  | Some (_, t) => t
  | None => []
  end.

(** Building blocks: [.] (not a newline), [\s], [\d], literals, [x+], [x+?] *)
Definition any_ch (c : ascii) : bool := negb (ch_eqb c "010"%char).
Definition lit (c : ascii) : regex := RCls (fun x => ch_eqb x c).
Definition plusG (p : ascii -> bool) : regex := RSeq (RCls p) (RStar true p).
Definition plusL (p : ascii -> bool) : regex := RSeq (RCls p) (RStar false p).
Definition star (p : ascii -> bool) : regex := RStar true p.

Fixpoint rword (w : list ascii) : regex -> regex :=
  match w with
  | [] => fun r => r
  | c :: w' => fun r => RSeq (lit c) (rword w' r)
  end.

(** [r"(.+?)\s*-\s*(.+?)\s+(\d+):(\d+),\s*(.+)"] *)
Definition HEADER_RE : regex :=
  RSeq (RGroup 1 (plusL any_ch))
  (RSeq (star is_space)
  (RSeq (lit "-"%char)
  (RSeq (star is_space)
  (RSeq (RGroup 2 (plusL any_ch))
  (RSeq (plusG is_space)
  (RSeq (RGroup 3 (plusG is_digit))
  (RSeq (lit ":"%char)
  (RSeq (RGroup 4 (plusG is_digit))
  (RSeq (lit ","%char)
  (RSeq (star is_space)
        (RGroup 5 (plusG any_ch)))))))))))).

(** ** The parsed document

    A BeautifulSoup tree: text nodes ([NavigableString]) and elements
    ([Tag]) with their attributes and children.  The document itself is the
    root element; a node is addressed by its path of child indices. *)

#[local] Set Warnings "-register-all".

Inductive node :=
| NText (s : text)
| NElem (tag : text) (attrs : list (text * text)) (kids : list node).

Abbreviation path := (list nat).

(** All nodes in document order (pre-order), with their paths. *)
Fixpoint flatten (p : path) (n : node) : list (path * node) :=
  (p, n) ::
  match n with
  | NText _ => []
  | NElem _ _ kids =>
      (fix go (i : nat) (ks : list node) : list (path * node) :=
         match ks with
         | [] => []
         | k :: ks' => flatten (p ++ [i]) k ++ go (S i) ks'
         end) 0 kids
  end.

Fixpoint node_at (n : node) (p : path) : option node :=
  match p with
  | [] => Some n
  | i :: p' =>
      match n with
      | NElem _ _ kids =>
          match nth_error kids i with Some k => node_at k p' | None => None end
      | NText _ => None
      end
  end.

Definition is_tag (n : node) : bool :=
  match n with NElem _ _ _ => true | NText _ => false end.

Definition tag_name (n : node) : text :=
  match n with NElem t _ _ => t | NText _ => [] end.

Definition has_tag (t : text) (n : node) : bool :=
  match n with NElem t' _ _ => text_eqb t t' | NText _ => false end.

Definition get_attr (k : text) (n : node) : option text :=
  match n with
  | NElem _ attrs _ =>
      match find (fun kv => text_eqb (fst kv) k) attrs with
      | Some (_, v) => Some v
      | None => None
      end
  | NText _ => None
  end.

(** [.strings]: every text node under [n], in document order *)
Fixpoint all_strings (n : node) : list text :=
  match n with
  | NText s => [s]
  | NElem _ _ kids => flat_map all_strings kids
  end.

Definition nonempty (s : text) : bool := match s with [] => false | _ => true end.

Definition nonempty_list {A} (l : list A) : bool := match l with [] => false | _ => true end.

(** [.stripped_strings] *)
Definition stripped_strings (n : node) : list text :=
  filter nonempty (map strip (all_strings n)).

(** [.get_text(sep, strip=True)] and [.get_text()] *)
Definition get_text_sep (sep : text) (n : node) : text :=
  py_join sep (stripped_strings n).

Definition get_text_raw (n : node) : text := concat (all_strings n).

(** Descendants of the node at [p] (the node itself excluded). *)
Definition descendants (doc : node) (p : path) : list (path * node) :=
  match node_at doc p with
  | Some n => tl (flatten p n)
  | None => []
  end.

Definition texts_of (l : list (path * node)) : list (path * text) :=
  flat_map (fun pn => match snd pn with NText s => [(fst pn, s)] | _ => [] end) l.

(** [x.find(tag)], [x.find_all(tag)] *)
Definition find_all_tag (doc : node) (p : path) (t : text) : list (path * node) :=
  filter (fun pn => has_tag t (snd pn)) (descendants doc p).

Definition find_tag (doc : node) (p : path) (t : text) : option (path * node) :=
  hd_error (find_all_tag doc p t).

(** [x.find_all(string=pred)], [x.find(string=pred)] *)
Definition find_all_string (doc : node) (p : path) (pred : text -> bool)
  : list (path * text) :=
  filter (fun pt => pred (snd pt)) (texts_of (descendants doc p)).

Definition find_string (doc : node) (p : path) (pred : text -> bool)
  : option (path * text) :=
  hd_error (find_all_string doc p pred).

Definition parent (p : path) : path := removelast p.

Definition path_eqb (p q : path) : bool :=
  if list_eq_dec Nat.eq_dec p q then true else false.

(** Following siblings of [p], in order. *)
Definition next_siblings (doc : node) (p : path) : list (path * node) :=
  match rev p with
  | [] => []
  | i :: rq =>
      match node_at doc (rev rq) with
      | Some (NElem _ _ kids) =>
          let q := rev rq in
          (fix go (j : nat) (ks : list node) : list (path * node) :=
             match ks with
             | [] => []
             | k :: ks' => (if i <? j then [(q ++ [j], k)] else []) ++ go (S j) ks'
             end) 0 kids
      | _ => []
      end
  end.

Definition next_sibling (doc : node) (p : path) : option (path * node) :=
  hd_error (next_siblings doc p).

(** [x.find_next_sibling()]: the next sibling that is a tag *)
Definition find_next_sibling (doc : node) (p : path) : option (path * node) :=
  hd_error (filter (fun pn => is_tag (snd pn)) (next_siblings doc p)).

(** Nodes strictly before [p] in document order ([previous_elements],
    nearest first), and strictly after it ([next_elements]). *)
Fixpoint before_path (p : path) (l : list (path * node)) : list (path * node) :=
  match l with
  | [] => []
  | x :: l' => if path_eqb (fst x) p then [] else x :: before_path p l'
  end.

Fixpoint after_path (p : path) (l : list (path * node)) : list (path * node) :=
  match l with
  | [] => []
  | x :: l' => if path_eqb (fst x) p then l' else after_path p l'
  end.

Definition previous_elements (doc : node) (p : path) : list (path * node) :=
  rev (before_path p (flatten [] doc)).

Definition next_elements (doc : node) (p : path) : list (path * node) :=
  after_path p (flatten [] doc).

(** [" ".join(s.split())] *)
Definition normalize (s : text) : text := py_join [" "%char] (py_split s).

(** ** demo_scraper.py *)

Record GoalEvent := mkGoal { team : text; player : text; minute : Z }.

Record Header := mkHeader {
  home_team : text; away_team : text;
  home_score : Z; away_score : Z;
  competition : text }.

(** [title] of [_parse_header_info], for a document whose first <h1> is [h1] *)
Definition header_title (h1 : node) : text := normalize (get_text_sep [" "%char] h1).

Definition _parse_header_info (doc : node) : result Header :=
  match find_tag doc [] (s_ "h1") with
  | None => Raise (RuntimeError (s_ "Could not find match title <h1>"))
  | Some (_, h1) =>
      let title := header_title h1 in
      match re_match HEADER_RE title with
      | None => Raise (RuntimeError (s_ "Unexpected match title format: " ++ title))
      | Some m =>
          match py_int (group 3 m), py_int (group 4 m) with
          | Some hs, Some as_ =>
              Ok {| home_team := strip (group 1 m);
                    away_team := strip (group 2 m);
                    home_score := hs; away_score := as_;
                    competition := strip (group 5 m) |}
          | _, _ => Raise ValueError
          end
      end
  end.

(** [str.replace(old, new)]: left to right, non-overlapping *)
Fixpoint replace_fuel (fuel : nat) (old new s : text) : text :=
  match fuel with
  | 0 => s
  | S f =>
      match s with
      | [] => []
      | c :: s' =>
          if nonempty old && starts_with old s
          then new ++ replace_fuel f old new (skipn (length old) s)
          else c :: replace_fuel f old new s'
      end
  end.

Definition py_replace (old new s : text) : text := replace_fuel (S (length s)) old new s.

(** [s.split(",")] *)
Fixpoint split_on_aux (sep : ascii) (cur : text) (s : text) : list text :=
  match s with
  | [] => [rev cur]
  | c :: s' =>
      if ch_eqb c sep then rev cur :: split_on_aux sep [] s'
      else split_on_aux sep (c :: cur) s'
  end.

Definition split_on (sep : ascii) (s : text) : list text := split_on_aux sep [] s.

(** [s.rstrip(chars)] *)
Definition rstrip_chars (chars : text) (s : text) : text :=
  rev ((fix go (l : text) : text :=
          match l with
          | [] => []
          | c :: l' => if existsb (ch_eqb c) chars then go l' else l
          end) (rev s)).

(** [int(...)] of a string matched by [\d+] *)
Definition int_of_digits (s : text) : Z :=
  fold_left (fun acc c => (acc * 10 + digit_val c)%Z) s 0%Z.

Fixpoint rseq (r : regex) (rs : list regex) : regex :=
  match rs with
  | [] => r
  | r' :: rs' => RSeq r (rseq r' rs')
  end.

Definition dig : regex := RCls is_digit.

(** [GOAL_MINUTE_RE = re.compile(r"(\d+)'")] *)
Definition GOAL_MINUTE_RE : regex := RSeq (RGroup 1 (plusG is_digit)) (lit "'"%char).

(** [DATETIME_RE = re.compile(r"(\d{2}\.\d{2}\.\d{4}\.)\s+(\d{2}:\d{2})")] *)
Definition DATETIME_RE : regex :=
  RSeq (RGroup 1 (rseq dig [dig; lit "."%char; dig; dig; lit "."%char;
                           dig; dig; dig; dig; lit "."%char]))
  (RSeq (plusG is_space)
        (RGroup 2 (rseq dig [dig; lit ":"%char; dig; dig]))).

Record datetime := mkDatetime { year : Z; month : Z; day : Z; hour : Z; minutes : Z }.

Definition leap (y : Z) : bool :=
  (Z.eqb (y mod 4) 0 && negb (Z.eqb (y mod 100) 0)) || Z.eqb (y mod 400) 0.

Definition days_in_month (y m : Z) : Z :=
  if Z.eqb m 2 then (if leap y then 29 else 28)
  else if existsb (Z.eqb m) [4; 6; 9; 11]%Z then 30 else 31.

(** [datetime.strptime(f"{date_part} {time_part}", "%d.%m.%Y. %H:%M")] for
    the shapes DATETIME_RE accepts: [dd.mm.yyyy.] and [hh:mm]. *)
Definition strptime_dt (date_part time_part : text) : result datetime :=
  let d := int_of_digits (firstn 2 date_part) in
  let mo := int_of_digits (firstn 2 (skipn 3 date_part)) in
  let y := int_of_digits (firstn 4 (skipn 6 date_part)) in
  let h := int_of_digits (firstn 2 time_part) in
  let mi := int_of_digits (skipn 3 time_part) in
  if (1 <=? y)%Z && (1 <=? mo)%Z && (mo <=? 12)%Z && (1 <=? d)%Z
     && (d <=? days_in_month y mo)%Z && (h <=? 23)%Z && (mi <=? 59)%Z
  then Ok (mkDatetime y mo d h mi)
  else Raise ValueError.

Definition matches_search (r : regex) (s : text) : bool :=
  match re_search r s with Some _ => true | None => false end.

Definition _parse_datetime_and_venue (doc : node)
  : result (option text * option text * option datetime) :=
  match find_all_string doc [] (matches_search DATETIME_RE) with
  | [] => Ok (None, None, None)
  | (_, t0) :: _ =>
      let s := strip t0 in
      match re_search DATETIME_RE s with
      | None => Ok (None, None, None)
      | Some (start, m) =>
          dt <- strptime_dt (group 1 m) (group 2 m) ;;
          let before := strip (rstrip_chars (s_ ", ") (firstn start s)) in
          if nonempty before then
            let parts := map strip (split_on ","%char before) in
            match parts with
            | [p] => Ok (Some p, None, Some dt)
            | p :: q :: _ => Ok (Some p, Some q, Some dt)
            | [] => Ok (None, None, Some dt)
            end
          else Ok (None, None, Some dt)
      end
  end.

(** The token scanner of [_parse_goals_block]: the state is [last_name]
    and the goals emitted so far. *)
Definition truthy (o : option text) : bool :=
  match o with Some l => nonempty l | None => false end.

Definition goal_step (st : option text * list GoalEvent) (token : text)
  : option text * list GoalEvent :=
  let (last_name, goals) := st in
  match re_fullmatch GOAL_MINUTE_RE token, last_name with
  | Some m, Some l =>
      if nonempty l
      then (None, goals ++ [mkGoal [] l (int_of_digits (group 1 m))])
      else (last_name, goals)
  | Some _, None => (last_name, goals)
  | None, _ =>
      if starts_with (s_ "Suci") token then (last_name, goals)
      else (Some token, goals)
  end.

Definition scan_goals (candidates : list text) : list GoalEvent :=
  snd (fold_left goal_step candidates (None, [])).

(** [Tag] is always truthy, a [NavigableString] when non-empty. *)
Definition node_truthy (n : node) : bool :=
  match n with NElem _ _ _ => true | NText s => nonempty s end.

(** The bounded forward walk: at most 120 steps from the referees' parent. *)
Fixpoint goals_walk (doc : node) (fuel : nat) (cur : option (path * node))
  : list text :=
  match fuel, cur with
  | S f, Some (p, n) =>
      if node_truthy n then
        stripped_strings n ++
        goals_walk doc f (if is_tag n then next_sibling doc p
                          else next_sibling doc (parent p))
      else []
  | _, _ => []
  end.

Definition _parse_goals_block (doc : node) : list GoalEvent :=
  match find_string doc [] (contains (s_ "Suci:")) with
  | None => []
  | Some (p, _) =>
      let q := parent p in
      let start := match node_at doc q with Some n => Some (q, n) | None => None end in
      scan_goals (goals_walk doc 120 start)
  end.

(** [r"(.+?)\s*-\s*(.+?)\s+\d+:\d+"] *)
Definition TEAMS_RE : regex :=
  rseq (RGroup 1 (plusL any_ch))
    [star is_space; lit "-"%char; star is_space; RGroup 2 (plusL any_ch);
     plusG is_space; plusG is_digit; lit ":"%char; plusG is_digit].

Definition _iterate_team_blocks (doc : node) : list path :=
  match find_tag doc [] (s_ "h1") with
  | None => []
  | Some (_, h1) =>
      let title := get_text_sep [" "%char] h1 in
      match re_match TEAMS_RE title with
      | None => []
      | Some m =>
          flat_map (fun team_name =>
                      match find_string doc [] (fun t => text_eqb (strip t) team_name) with
                      | Some (p, _) => [parent p]
                      | None => []
                      end)
                   [strip (group 1 m); strip (group 2 m)]
      end
  end.

Record PlayerEvent := mkPlayerEvent { ev_minute : Z; raw : text }.

Record PlayerInfo := mkPlayer {
  name : text; shirt_number : option Z; position : option text;
  is_captain : bool; is_starting : bool; events : list PlayerEvent }.

(** [Tag.__eq__] / [NavigableString.__eq__]: structural equality *)
Fixpoint node_eqb (a b : node) : bool :=
  match a, b with
  | NText s, NText t => text_eqb s t
  | NElem t1 a1 k1, NElem t2 a2 k2 =>
      text_eqb t1 t2
      && (fix ga (l1 l2 : list (text * text)) : bool :=
            match l1, l2 with
            | [], [] => true
            | x :: xs, y :: ys => text_eqb (fst x) (fst y) && text_eqb (snd x) (snd y) && ga xs ys
            | _, _ => false
            end) a1 a2
      && (fix go (l1 l2 : list node) : bool :=
            match l1, l2 with
            | [], [] => true
            | x :: xs, y :: ys => node_eqb x y && go xs ys
            | _, _ => false
            end) k1 k2
  | _, _ => false
  end.

(** Shirt number: [h3.find_all_previous(string=True, limit=3)] lists the
    three nearest preceding text nodes, nearest first; the loop runs over
    that list [reversed]. *)
Definition shirt_from_prev (prev_texts : list text) : option Z :=
  match find (fun t => py_isdigit (strip t)) (rev prev_texts) with
  | Some t => Some (int_of_digits (strip t))
  | None => None
  end.

Definition prev_texts3 (doc : node) (h3 : path) : list text :=
  firstn 3 (map snd (texts_of (previous_elements doc h3))).

(** The [while] loop over [find_next_sibling()]: tag siblings whose
    [get_text(strip=True)] is empty are skipped. *)
Fixpoint skip_empty_tags (sibs : list (path * node)) : option node :=
  match sibs with
  | [] => None
  | (_, n) :: r =>
      if is_tag n then (if nonempty (get_text_sep [] n) then Some n else skip_empty_tags r)
      else skip_empty_tags r
  end.

(** Events: siblings of the heading up to the next <h3>. *)
Fixpoint events_of_sibs (sibs : list (path * node)) : list PlayerEvent :=
  match sibs with
  | [] => []
  | (_, n) :: r =>
      if has_tag (s_ "h3") n then []
      else (if is_tag n then
              flat_map (fun t => match re_fullmatch GOAL_MINUTE_RE t with
                                 | Some m => [mkPlayerEvent (int_of_digits (group 1 m)) t]
                                 | None => []
                                 end) (stripped_strings n)
            else []) ++ events_of_sibs r
  end.

Definition parse_player (doc : node) (team_block : path) (h3p : path) (h3 : node)
  : PlayerInfo :=
  let name_text := get_text_sep [" "%char] h3 in
  let is_captain := contains (s_ "(C)") name_text in
  let name_text := strip (py_replace (s_ "(C)") [] name_text) in
  let shirt_number := shirt_from_prev (prev_texts3 doc h3p) in
  let position :=
    match skip_empty_tags (next_siblings doc h3p) with
    | Some nxt => let pos_text := get_text_sep [" "%char] nxt in
                  if nonempty pos_text then Some pos_text else None
    | None => None
    end in
  let events := events_of_sibs (next_siblings doc h3p) in
  let is_starting :=
    match find_string doc team_block (contains (s_ "Pričuvni igrači")) with
    | Some (bp, _) =>
        let bpar := parent bp in
        match node_at doc bpar with
        | Some bnode =>
            if nonempty_list (find_all_tag doc bpar (s_ "h3"))
               && existsb (fun pn => is_tag (snd pn) && node_eqb (snd pn) bnode)
                          (previous_elements doc h3p)
            then false else true
        | None => true
        end
    | None => true
    end in
  mkPlayer name_text shirt_number position is_captain is_starting events.

Definition _parse_players_from_team_block (doc : node) (team_block : path)
  : list PlayerInfo :=
  map (fun pn => parse_player doc team_block (fst pn) (snd pn))
      (find_all_tag doc team_block (s_ "h3")).

(** Python dicts: insertion-ordered association lists. *)
Fixpoint dict_get {V} (k : text) (d : list (text * V)) : option V :=
  match d with
  | [] => None
  | (k', v) :: d' => if text_eqb k k' then Some v else dict_get k d'
  end.

(** [d[k] = v]: an existing key keeps its place *)
Fixpoint dict_set {V} (k : text) (v : V) (d : list (text * V)) : list (text * V) :=
  match d with
  | [] => [(k, v)]
  | (k', v') :: d' => if text_eqb k k' then (k', v) :: d' else (k', v') :: dict_set k v d'
  end.

(** [d.setdefault(k, v)] *)
Fixpoint dict_setdefault {V} (k : text) (v : V) (d : list (text * V)) : list (text * V) :=
  match d with
  | [] => [(k, v)]
  | (k', v') :: d' => if text_eqb k k' then d else (k', v') :: dict_setdefault k v d'
  end.

Definition player_to_team (lineups : list (text * list PlayerInfo)) : list (text * text) :=
  fold_left (fun m tp => fold_left (fun m p => dict_setdefault (name p) (fst tp) m) (snd tp) m)
            lineups [].

(** [_attach_goal_teams] sets [g.team] on every goal in place; the goal
    list is returned updated. *)
Definition _attach_goal_teams (goals : list GoalEvent) (lineups : list (text * list PlayerInfo))
  : list GoalEvent :=
  let m := player_to_team lineups in
  map (fun g => mkGoal (match dict_get (player g) m with
                        | Some t => t
                        | None => s_ "Unknown"
                        end) (player g) (minute g)) goals.

Record MatchData := mkMatch {
  url : text; md_competition : option text;
  md_home_team : text; md_away_team : text;
  md_home_score : Z; md_away_score : Z;
  venue : option text; city : option text; date_time : option datetime;
  goals : list GoalEvent;
  lineups : list (text * list PlayerInfo) }.

(** [scrape_match] on the document fetched from [u]; the
    [print(f"Home team block: {team_blocks[0]}")] line indexes the list. *)
Definition scrape_match (u : text) (doc : node) : result MatchData :=
  header <- _parse_header_info doc ;;
  vcd <- _parse_datetime_and_venue doc ;;
  let '(venue, city, dt) := vcd in
  let goals := _parse_goals_block doc in
  let team_blocks := _iterate_team_blocks doc in
  let lineups0 := dict_set (away_team header) [] (dict_set (home_team header) [] []) in
  _ <- py_index team_blocks 0 ;;
  let lineups1 :=
    match team_blocks with
    | b0 :: _ => dict_set (home_team header) (_parse_players_from_team_block doc b0) lineups0
    | [] => lineups0
    end in
  let lineups2 :=
    match team_blocks with
    | _ :: b1 :: _ => dict_set (away_team header) (_parse_players_from_team_block doc b1) lineups1
    | _ => lineups1
    end in
  let goals := _attach_goal_teams goals lineups2 in
  Ok (mkMatch u (Some (competition header)) (home_team header) (away_team header)
              (home_score header) (away_score header) venue city dt goals lineups2).

(** ** scraper.py: [CompetitionScraper] *)

Definition ci_prefix (pre s : text) : bool := starts_with (py_lower pre) (py_lower s).

(** [re.search(r"/klub|^NK |^HNK |^ONK |^BŠK |^GNK |^NK ", text, re.I)] *)
Definition team_text_re (t : text) : bool :=
  contains (s_ "/klub") (py_lower t)
  || existsb (fun pre => ci_prefix (s_ pre) t)
             ["NK "; "HNK "; "ONK "; "BŠK "; "GNK "; "NK "]%string.

(** [r"/klub/(\d+)"] *)
Definition KLUB_ID_RE : regex := rword (s_ "/klub/") (RGroup 1 (plusG is_digit)).

(** [\w] on one-byte characters; bytes of multi-byte characters count as
    word characters (letters) *)
Definition is_word (c : ascii) : bool :=
  let n := nat_of_ascii c in
  is_digit c || ((65 <=? n) && (n <=? 90)) || ((97 <=? n) && (n <=? 122))
  || (n =? 95) || (128 <=? n).

(** [re.match(r"^(NK|HNK|ONK|BŠK|GNK)\b", txt)] *)
Definition club_prefix_re (t : text) : bool :=
  existsb (fun pre =>
             starts_with (s_ pre) t
             && match skipn (length (s_ pre)) t with
                | [] => true
                | c :: _ => negb (is_word c)
                end) ["NK"; "HNK"; "ONK"; "BŠK"; "GNK"]%string.

Record TeamInfo := mkTeam {
  tname : text; turl : option text; crest : option text; hns_id : option text }.

Section CompetitionScraper.

(** [urllib.parse.urljoin] and the iteration order of a Python [set] built
    from a list of strings are library behaviour, left abstract. *)
Variable urljoin : text -> text -> text.
Variable set_iter : list text -> list text.
(** [dateutil.parser.parse(..., dayfirst=True, fuzzy=True)]; [None] when
    it raises (the exception is caught). *)
Variable dateutil_parse : text -> option datetime.

Variable base_url : text.

Definition team_entry (a : node) : TeamInfo :=
  let href := match get_attr (s_ "href") a with Some h => h | None => [] end in
  let text := get_text_sep [" "%char] a in
  let full_href := urljoin base_url href in
  let img := match a with
             | NElem _ _ _ => hd_error (filter (fun pn => has_tag (s_ "img") (snd pn))
                                              (tl (flatten [] a)))
             | NText _ => None
             end in
  let img_src := match img with
                 | Some (_, i) => match get_attr (s_ "src") i with
                                  | Some src => if nonempty src then Some (urljoin base_url src) else None
                                  | None => None
                                  end
                 | None => None
                 end in
  let hns_id := match re_search KLUB_ID_RE href with
                | Some (_, m) => group 1 m
                | None => href
                end in
  mkTeam text (Some full_href) img_src (Some hns_id).

Definition is_team_anchor (a : node) : bool :=
  let href := match get_attr (s_ "href") a with Some h => h | None => [] end in
  let text := get_text_sep [" "%char] a in
  nonempty text && (team_text_re text || contains (s_ "/klub") href).

(** The anchors of [soup.find_all("a", href=True)] *)
Definition href_anchors (doc : node) : list node :=
  map snd (filter (fun pn => has_tag (s_ "a") (snd pn)
                             && match get_attr (s_ "href") (snd pn) with Some _ => true | None => false end)
                  (descendants doc [])).

Definition teams_from_anchors (anchors : list node) : list (text * TeamInfo) :=
  fold_left (fun teams a =>
               if is_team_anchor a
               then dict_set (get_text_sep [" "%char] a) (team_entry a) teams
               else teams) anchors [].

Definition parse_teams (doc : node) : list TeamInfo :=
  let teams := teams_from_anchors (href_anchors doc) in
  let teams :=
    match teams with
    | [] =>
        let candidate_texts :=
          filter club_prefix_re
            (map (fun pn => get_text_sep [" "%char] (snd pn))
                 (filter (fun pn => existsb (fun t => has_tag (s_ t) (snd pn))
                                            ["div"; "li"; "span"]%string)
                         (descendants doc []))) in
        fold_left (fun teams t => dict_set t (mkTeam t None None None) teams)
                  (set_iter candidate_texts) []
    | _ => teams
    end in
  map snd teams.

Record Fixture := mkFixture {
  fdate : option datetime; fhome : text; faway : text;
  home_goals : option Z; away_goals : option Z;
  fvenue : option text; match_url : option text }.

(** [r"\d{2}\.\d{2}\.\d{4}\.?"] used with [search]: the optional final dot
    never changes whether a search succeeds, so it is left out. *)
Definition DATE_RE : regex :=
  rseq dig [dig; lit "."%char; dig; dig; lit "."%char; dig; dig; dig; dig].

(** [r"\d{2}\.\d{2}\.\d{4}\."] *)
Definition DATE_STOP_RE : regex := rseq DATE_RE [lit "."%char].

(** [r"(\d+)\s*:\s*(\d+)"] *)
Definition SCORE_RE : regex :=
  rseq (RGroup 1 (plusG is_digit)) [star is_space; lit ":"%char; star is_space;
                                    RGroup 2 (plusG is_digit)].

Definition _parse_datetime_from_context (txt : text) : option datetime :=
  let txt := strip txt in
  dateutil_parse (strip (py_replace (s_ ".") [] txt)).

(** The inner loop over [list(current.next_siblings)[:40]], with its
    [break].  The unused [v = sib.find_next(...)] lookup has no effect and
    is not modelled. *)
Fixpoint fixtures_of_sibs (doc : node) (node_text : text) (sibs : list (path * node))
  : list Fixture :=
  match sibs with
  | [] => []
  | (sp, sib) :: rest =>
      let anchors := if is_tag sib then find_all_tag doc sp (s_ "a") else [] in
      let here :=
        if (2 <=? length anchors) && matches_search SCORE_RE (get_text_sep [" "%char] sib)
        then
          let a_texts := map (fun pn => get_text_sep [" "%char] (snd pn)) (firstn 2 anchors) in
          let score_match := re_search SCORE_RE (get_text_sep [" "%char] sib) in
          let hg := match score_match with Some (_, m) => Some (int_of_digits (group 1 m)) | None => None end in
          let ag := match score_match with Some (_, m) => Some (int_of_digits (group 2 m)) | None => None end in
          let venue := None in
          let dt := _parse_datetime_from_context node_text in
          [mkFixture dt (nth 0 a_texts []) (nth 1 a_texts []) hg ag venue None]
        else [] in
      here ++
      (if matches_search DATE_STOP_RE (get_text_raw sib) then []
       else fixtures_of_sibs doc node_text rest)
  end.

(** The fallback loop; [score_match.group(1)] on [None] would raise
    [AttributeError]. *)
Definition fallback_fixture (doc : node) (pt : path * text) : result (list Fixture) :=
  let anchors := find_all_tag doc (parent (fst pt)) (s_ "a") in
  if 2 <=? length anchors then
    let a_texts := map (fun pn => get_text_sep [] (snd pn)) (firstn 2 anchors) in
    match re_search SCORE_RE (snd pt) with
    | Some (_, m) =>
        Ok [mkFixture None (nth 0 a_texts []) (nth 1 a_texts [])
                      (Some (int_of_digits (group 1 m))) (Some (int_of_digits (group 2 m)))
                      None None]
    | None => Raise AttributeError
    end
  else Ok [].

Fixpoint result_concat {A} (l : list (result (list A))) : result (list A) :=
  match l with
  | [] => Ok []
  | r :: l' => x <- r ;; y <- result_concat l' ;; Ok (x ++ y)
  end.

Definition parse_fixtures (doc : node) : result (list Fixture) :=
  let date_nodes := find_all_string doc [] (matches_search DATE_RE) in
  let fixtures :=
    flat_map (fun pt => fixtures_of_sibs doc (snd pt)
                          (firstn 40 (next_siblings doc (parent (fst pt))))) date_nodes in
  match fixtures with
  | [] =>
      let all_nodes := find_all_string doc [] (matches_search SCORE_RE) in
      result_concat (map (fallback_fixture doc) all_nodes)
  | _ => Ok fixtures
  end.

End CompetitionScraper.

Record StandingsRow := mkRow {
  st_position : Z; st_team : text;
  played : Z; wins : Z; draws : Z; losses : Z;
  goals_for : Z; goals_against : Z; points : Z }.

Section Standings.

(** Python's [str.isdigit()] and [int()] on cell texts, over the whole of
    Unicode (texts are UTF-8): [isdigit t] holds for a non-empty string
    of characters of numeric type Digit or Decimal (["7"], ["²"], ["①"]);
    [int_digits t] is [int(t)] for a string [t] that passed [isdigit]:
    its value when every character is a Decimal digit, [None] when [int]
    raises [ValueError] (["²"]). *)
Variable isdigit : text -> bool.
Variable int_digits : text -> option N.

(** [int(t) if t.isdigit() else 0] *)
Definition int_if_digit (t : text) : result Z :=
  if isdigit t
  then match int_digits t with Some n => Ok (Z.of_N n) | None => Raise ValueError end
  else Ok 0%Z.

(** [int(tds[i]) if len(tds) > i and tds[i].isdigit() else 0] *)
Definition col_or_0 (tds : list text) (i : nat) : result Z :=
  match nth_error tds i with
  | Some t => int_if_digit t
  | None => Ok 0%Z
  end.

(** The body of the [try] for one row, given the cell texts
    [td.get_text(" ", strip=True)]; [tr.find_all("td")[1]] has the text
    [tds[1]]. The statements run in the source's order. *)
Definition parse_row (tds : list text) : result StandingsRow :=
  pos <- match py_int (nth 0 tds []) with Some p => Ok p | None => Raise ValueError end ;;
  team_name <- py_index tds 1 ;;
  played <- col_or_0 tds 2 ;;
  wins <- col_or_0 tds 3 ;;
  draws <- col_or_0 tds 4 ;;
  losses <- col_or_0 tds 5 ;;
  gf <- col_or_0 tds 6 ;;
  ga <- col_or_0 tds 7 ;;
  pts <- int_if_digit (last tds []) ;;
  Ok (mkRow pos team_name played wins draws losses gf ga pts).

(** The row loop: empty rows are skipped, a row whose [try] raises is
    skipped ([except Exception: continue]). *)
Fixpoint parse_rows (rows : list (list text)) : list StandingsRow :=
  match rows with
  | [] => []
  | tds :: rows' =>
      match tds with
      | [] => parse_rows rows'
      | _ => match parse_row tds with
             | Ok r => r :: parse_rows rows'
             | Raise _ => parse_rows rows'
             end
      end
  end.

Fixpoint strict_prefixes (p : path) : list path :=
  match p with
  | [] => []
  | i :: p' => [] :: map (cons i) (strict_prefixes p')
  end.

(** [table.select("tbody tr")]: <tr> descendants with a <tbody> ancestor *)
Definition tbody_rows (doc : node) (tp : path) : list (path * node) :=
  filter (fun pn => has_tag (s_ "tr") (snd pn)
                    && existsb (fun q => match node_at doc q with
                                         | Some n => has_tag (s_ "tbody") n
                                         | None => false
                                         end) (strict_prefixes (fst pn)))
         (descendants doc tp).

Definition row_cells (doc : node) (trp : path) : list text :=
  map (fun pn => get_text_sep [" "%char] (snd pn)) (find_all_tag doc trp (s_ "td")).

Definition is_standings_table (doc : node) (tp : path) : bool :=
  let headers := map (fun pn => py_lower (get_text_sep [] (snd pn))) (find_all_tag doc tp (s_ "th")) in
  existsb (fun h => contains (s_ h) (py_join [" "%char] headers)) ["poz"; "klub"; "bod"]%string.

(** Rows per table, in document order; [parse_standings] concatenates them. *)
Definition standings_per_table (doc : node) : list (list StandingsRow) :=
  map (fun tpn => parse_rows (map (fun pn => row_cells doc (fst pn)) (tbody_rows doc (fst tpn))))
      (filter (fun tpn => is_standings_table doc (fst tpn)) (find_all_tag doc [] (s_ "table"))).

Definition parse_standings (doc : node) : list StandingsRow := concat (standings_per_table doc).

End Standings.

(** [parse_competition_meta] *)

(** [Tag.string]: the text of the only child, looking through tags with
    a single child; [None] for zero or several children. *)
Fixpoint tag_string (n : node) : option text :=
  match n with
  | NText s => Some s
  | NElem _ _ [k] => tag_string k
  | NElem _ _ _ => None
  end.

(** [r"\d{4}/\d{4}"] *)
Definition SEASON_RE : regex :=
  rseq dig [dig; dig; dig; lit "/"%char; dig; dig; dig; dig].

Record CompetitionMeta := mkMeta {
  cm_name : option text; season_label : option text; cm_url : text }.

(** [title.get_text(strip=True)] of the first <h1>; else [soup.title.string]
    when there is a <title>; else the competition url.  A [Tag] is always
    truthy, so [if title:] only tests that a tag was found. *)
Definition parse_competition_meta (base_url : text) (doc : node) : CompetitionMeta :=
  let name :=
    match find_tag doc [] (s_ "h1") with
    | Some (_, title) => Some (get_text_sep [] title)
    | None =>
        match find_tag doc [] (s_ "title") with
        | Some (_, t) => tag_string t
        | None => Some base_url
        end
    end in
  let season_text :=
    match find_string doc [] (matches_search SEASON_RE) with
    | Some (_, s) => Some (strip s)
    | None => None
    end in
  mkMeta name season_text base_url.

(** [parse_player_stats] *)

(** Values stored in the per-player dicts. *)
Inductive pyval :=
| PInt (z : Z)
| PNone
| PStr (s : text).

Abbreviation pdict := (list (text * pyval)).

(** [d.update(kvs)] *)
Definition dict_update (d : pdict) (kvs : pdict) : pdict :=
  fold_left (fun d kv => dict_set (fst kv) (snd kv) d) kvs d.

(** [stats.setdefault(name, {}).update(kvs)]: [setdefault] returns the
    dict stored under [name], and [update] mutates that very dict. *)
Definition stats_update (nm : text) (kvs : pdict) (stats : list (text * pdict))
  : list (text * pdict) :=
  let stats := dict_setdefault nm [] stats in
  let inner := match dict_get nm stats with Some d => d | None => [] end in
  dict_set nm (dict_update inner kvs) stats.

(** Maximal runs of word characters ([\w]). *)
Fixpoint word_runs_aux (cur : text) (s : text) : list text :=
  match s with
  | [] => match cur with [] => [] | _ => [rev cur] end
  | c :: s' =>
      if is_word c then word_runs_aux (c :: cur) s'
      else match cur with
           | [] => word_runs_aux [] s'
           | _ => rev cur :: word_runs_aux [] s'
           end
  end.

(** [re.findall(r"\b\d+\b", s)]: a match starts after a non-word
    character (or at the start), takes digits and ends before a non-word
    character (or at the end); as digits are word characters, the matches
    are the maximal runs of word characters made of digits only. *)
Definition findall_numbers (s : text) : list text :=
  filter py_isdigit (word_runs_aux [] s).

(** One player anchor [a] with visible name [nm] in a block whose text is
    [block_text], under the heading [heading_text]. *)
Definition stat_step (heading_text block_text : text) (stats : list (text * pdict)) (nm : text)
  : list (text * pdict) :=
  let numbers := findall_numbers block_text in
  let first := match numbers with n :: _ => Some (int_of_digits n) | [] => None end in
  let second := match numbers with _ :: n :: _ => Some (int_of_digits n) | _ => None end in
  let goals : option Z :=
    if text_eqb heading_text (s_ "Strijelci")
    then Some (match first with Some g => g | None => 0%Z end) else None in
  let minutes : option Z :=
    if text_eqb heading_text (s_ "Strijelci") then None
    else if text_eqb heading_text (s_ "Nastupi / minute") then second
    else None in
  let stats :=
    if negb (text_eqb heading_text (s_ "Strijelci"))
       && negb (text_eqb heading_text (s_ "Nastupi / minute"))
       && text_eqb heading_text (s_ "Kartoni")
    then stats_update nm
           [(s_ "yellow_cards", PInt (match first with Some y => y | None => 0%Z end));
            (s_ "red_cards", PInt (match second with Some r => r | None => 0%Z end))] stats
    else stats in
  let old (k : text) : pyval :=
    match dict_get nm (dict_setdefault nm [] stats) with
    | Some d => match dict_get k d with Some v => v | None => PNone end
    | None => PNone
    end in
  stats_update nm
    [(s_ "full_name", PStr nm);
     (s_ "goals", match goals with Some g => PInt g | None => old (s_ "goals") end);
     (s_ "minutes", match minutes with Some m => PInt m | None => old (s_ "minutes") end)]
    stats.

(** The anchors [sib.select("a")] of one sibling block; empty names are
    skipped. *)
Definition sib_stats (heading_text : text) (doc : node) (stats : list (text * pdict))
  (sib : path * node) : list (text * pdict) :=
  fold_left (fun stats apn =>
               let nm := get_text_sep [] (snd apn) in
               if nonempty nm
               then stat_step heading_text (get_text_sep [" "%char] (snd sib)) stats nm
               else stats)
            (find_all_tag doc (fst sib) (s_ "a")) stats.

(** [for sib in heading.find_next_siblings()], stopping at a tag whose
    name starts with [h]. *)
Fixpoint sibs_stats (heading_text : text) (doc : node) (sibs : list (path * node))
  (stats : list (text * pdict)) : list (text * pdict) :=
  match sibs with
  | [] => stats
  | sib :: rest =>
      if starts_with (s_ "h") (tag_name (snd sib)) then stats
      else sibs_stats heading_text doc rest (sib_stats heading_text doc stats sib)
  end.

(** The heading: the first h2/h3/h4/strong whose [get_text()] contains the
    heading text, else the parent of the first string containing it. *)
Definition stats_heading (doc : node) (heading_text : text) : option path :=
  match find (fun pn => existsb (fun t => has_tag (s_ t) (snd pn)) ["h2"; "h3"; "h4"; "strong"]%string
                        && contains heading_text (get_text_raw (snd pn)))
             (descendants doc []) with
  | Some (p, _) => Some p
  | None =>
      match find_string doc [] (contains heading_text) with
      | Some (p, _) => Some (parent p)
      | None => None
      end
  end.

Definition STATS_HEADINGS : list text :=
  map s_ ["Strijelci"; "Kartoni"; "Nastupi / minute"; "Strijelci, kartoni"]%string.

Definition parse_player_stats (doc : node) : list (text * pdict) :=
  fold_left (fun stats heading_text =>
               match stats_heading doc heading_text with
               | Some hp =>
                   sibs_stats heading_text doc
                     (filter (fun pn => is_tag (snd pn)) (next_siblings doc hp)) stats
               | None => stats
               end) STATS_HEADINGS [].

(** The scanner of [_parse_goals_block] once more, each emitted goal
    paired with the index of the token that set [last_name] and the index
    of the minute token. *)
Fixpoint scan_from (k : nat) (last : option (nat * text)) (toks : list text)
  : list (GoalEvent * (nat * nat)) :=
  match toks with
  | [] => []
  | t :: ts =>
      match re_fullmatch GOAL_MINUTE_RE t, last with
      | Some m, Some (i, l) =>
          if nonempty l
          then (mkGoal [] l (int_of_digits (group 1 m)), (i, k)) :: scan_from (S k) None ts
          else scan_from (S k) last ts
      | Some _, None => scan_from (S k) last ts
      | None, _ =>
          if starts_with (s_ "Suci") t then scan_from (S k) last ts
          else scan_from (S k) (Some (k, t)) ts
      end
  end.

(** Consecutive (name index, minute index) pairs: each minute token comes
    before the next name token. *)
Fixpoint chained (l : list (nat * nat)) : Prop :=
  match l with
  | (_, j) :: (((i', _) :: _) as r) => j < i' /\ chained r
  | _ => True
  end.

(** Visible names in first-occurrence order, and the last club link with
    a given visible name. *)
Definition dedup_first (l : list text) : list text :=
  fold_left (fun acc x => if existsb (text_eqb x) acc then acc else acc ++ [x]) l [].

Definition anchor_key (a : node) : text := get_text_sep [" "%char] a.

Definition last_team_anchor (anchors : list node) (t : text) : option node :=
  fold_left (fun acc a => if is_team_anchor a && text_eqb (anchor_key a) t then Some a else acc)
            anchors None.

(** The words a regex matches and the captures it records: the language
    side of [mt]. *)
Inductive M : regex -> text -> caps -> caps -> Prop :=
| M_cls p x c : p x = true -> M (RCls p) [x] c c
| M_star g p w c : Forall (fun x => p x = true) w -> M (RStar g p) w c c
| M_seq r1 r2 w1 w2 c c1 c2 :
    M r1 w1 c c1 -> M r2 w2 c1 c2 -> M (RSeq r1 r2) (w1 ++ w2) c c2
| M_group n r w c c1 : M r w c c1 -> M (RGroup n r) w c ((n, w) :: c1).

(** A digit, a colon and a digit in a row: an [N:N] score. *)
Fixpoint has_score_pattern (t : text) : bool :=
  match t with
  | a :: ((b :: c :: _) as r) =>
      (is_digit a && ch_eqb b ":"%char && is_digit c) || has_score_pattern r
  | _ => false
  end.

(** A one-line name with no surrounding whitespace: nonempty, first and
    last characters not whitespace, no newline. *)
Definition trimmed_name (t : text) : bool :=
  match t with
  | [] => false
  | c :: _ => negb (is_space c) && negb (is_space (last t c)) && forallb any_ch t
  end.

(** A nonempty run of decimal digits. *)
Definition digit_str (t : text) : bool :=
  match t with [] => false | _ => forallb is_digit t end.

(** The header text ["<A> - <B> <x>:<y>, <C>"]. *)
Definition header_of (A B X Y C : text) : text :=
  A ++ s_ " - " ++ B ++ s_ " " ++ X ++ s_ ":" ++ Y ++ s_ ", " ++ C.

(** ** Concrete documents *)

Definition El (t : string) (kids : list node) : node := NElem (s_ t) [] kids.
Definition Tx (t : string) : node := NText (s_ t).
Definition doc_of (kids : list node) : node := NElem (s_ "[document]") [] kids.

(** [<h1>A - B 1:2, C</h1>]: the title parses, no text node equals a team name. *)
Definition bare_title_doc : node := doc_of [El "h1" [Tx "A - B 1:2, C"]].

(** [<h1>  NK Hajduk 1932 - NK Croatia   Gabrili 4:3, 1. ZNL 25/26 </h1>] *)
Definition hajduk_doc : node :=
  doc_of [El "h1" [Tx "  NK Hajduk 1932 - NK Croatia   Gabrili 4:3, 1. ZNL 25/26 "]].

(** A home team whose name contains a hyphen *)
Definition hyphen_doc : node := doc_of [El "h1" [Tx "Hajduk-Split - Dinamo 1:0, Liga"]].

(** A title without the [" - "] separator *)
Definition nodash_doc : node := doc_of [El "h1" [Tx "Hajduk Split 1:0, Liga"]].

(** A standings table with two rows whose first cells are both [1] *)
Definition tied_table_doc : node :=
  doc_of [El "table"
            [El "thead" [El "tr" [El "th" [Tx "Poz."]; El "th" [Tx "Klub"]]];
             El "tbody" [El "tr" [El "td" [Tx "1"]; El "td" [Tx "A"]];
                         El "tr" [El "td" [Tx "1"]; El "td" [Tx "B"]]]]].

(** A lineup block: three text nodes [5], [x], [9] precede the player card. *)
Definition card_doc : node :=
  doc_of [El "div" [El "span" [Tx "5"]; El "span" [Tx "x"]; El "span" [Tx "9"];
                    El "h3" [Tx "Ivan (C)"]; El "div" [Tx "Igrač"];
                    El "ul" [El "li" [Tx "60'"]]]].

(** Two club links with the same visible text *)
Definition twin_links_doc : node :=
  doc_of [NElem (s_ "a") [(s_ "href", s_ "/klub/1")] [Tx "NK A"];
          NElem (s_ "a") [(s_ "href", s_ "/klub/2")] [Tx "NK A"]].

Definition concat_join (b h : text) : text := b ++ h.

Definition sample_goal_tokens : list text :=
  map s_ ["Suci:"; "X"; "Bruno Berković"; "14'"; "Goran Rubeša"; "27'"]%string.


Definition is_ok {A} (r : result A) : bool := match r with Ok _ => true | Raise _ => false end.



(** Integer stats are non-negative. *)
Definition pint_nonneg (v : pyval) : Prop :=
  match v with PInt z => (0 <= z)%Z | _ => True end.

(** The shape of the [stats] dict after each completed player update. *)
Definition stats_inv (stats : list (text * pdict)) : Prop :=
  NoDup (map fst stats) /\
  forall k d, In (k, d) stats ->
    dict_get (s_ "full_name") d = Some (PStr k) /\ dict_get (s_ "goals") d <> None /\
    dict_get (s_ "minutes") d <> None /\ Forall (fun kv => pint_nonneg (snd kv)) d.

(** A page with club names in plain blocks and no links *)
Definition club_blocks_doc : node :=
  doc_of [El "div" [Tx "NK Zagreb"]; El "span" [Tx "HNK Rijeka"]; El "li" [Tx "Vijesti"]].

(** Patterns without [*] or [+] repetition *)
Fixpoint star_free (r : regex) : bool :=
  match r with
  | RCls _ => true
  | RStar _ _ => false
  | RSeq r1 r2 => star_free r1 && star_free r2
  | RGroup _ r => star_free r
  end.

(** A competition page: title, season line, scorers and cards sections *)
Definition stats_page_doc : node :=
  doc_of [El "title" [Tx "Liga"]; El "p" [Tx "Sezona 2025/2026 "];
          El "h2" [Tx "Strijelci"]; El "div" [El "a" [Tx "Ivo"]; Tx " 5 golova, 12a 7"];
          El "div" [El "a" [Tx "Ante"]];
          El "h3" [Tx "Kartoni"]; El "div" [El "a" [Tx "Ivo"]; Tx "2 1"]].


(** The superscript digits ["¹"], ["²"], ["³"]: numeric type Digit, not
    Decimal, so [isdigit()] is true and [int()] raises. *)
Definition superscripts : list text := map s_ ["¹"; "²"; "³"]%string.

(** [str.isdigit()] and [int()] as Python computes them on ASCII strings
    and on the single superscript digits, the cells of the examples. *)
Definition isdigit_ex (t : text) : bool := py_isdigit t || existsb (text_eqb t) superscripts.

Definition int_digits_ex (t : text) : option N :=
  if py_isdigit t then Some (Z.to_N (int_of_digits t)) else None.


(** ** Theorems *)

Example hajduk_header :
  _parse_header_info hajduk_doc =
  Ok {| home_team := s_ "NK Hajduk 1932"; away_team := s_ "NK Croatia Gabrili";
        home_score := 4; away_score := 3; competition := s_ "1. ZNL 25/26" |}.
Proof. vm_compute. reflexivity. Qed.

(** C2 (code_bug): the header of [bare_title_doc] parses, yet [scrape_match]
    raises [IndexError]: no team block is found and the debug [print]
    indexes [team_blocks[0]] before the length checks. *)
Theorem scrape_match_raises_without_team_blocks :
  is_ok (_parse_header_info bare_title_doc) = true /\
  _iterate_team_blocks bare_title_doc = [] /\
  scrape_match (s_ "https://semafor.hns.family/utakmice/1/") bare_title_doc = Raise IndexError.
Proof. vm_compute. repeat split. Qed.

(** C6 (counterexample): in one table two rows with first cell [1] both
    produce position 1. *)
Lemma standings_positions_not_unique :
  ~ (forall tbl, In tbl (standings_per_table isdigit_ex int_digits_ex tied_table_doc) ->
                 NoDup (map st_position tbl)).
Proof.
  intro H.
  specialize (H (hd [] (standings_per_table isdigit_ex int_digits_ex tied_table_doc))).
  vm_compute in H.
  assert (Hn := H (or_introl eq_refl)).
  inversion Hn as [|x l Hx Hl]; subst. apply Hx. left. reflexivity.
Qed.

(** C9 (code_bug): the three text nodes before the card are [9], [x], [5]
    (nearest first); the nearest numeric one is [9], the parser takes [5]. *)
Theorem shirt_number_takes_farthest :
  prev_texts3 card_doc [0; 3] = [s_ "9"; s_ "x"; s_ "5"] /\
  map shirt_number (_parse_players_from_team_block card_doc [0]) = [Some 5%Z].
Proof. vm_compute. split; reflexivity. Qed.

(** C8 (counterexample): with two links [NK A] the entry carries the id
    of the second link. *)
Lemma parse_teams_last_link_wins :
  map hns_id (parse_teams concat_join (fun l => l) (s_ "https://semafor.hns.family") twin_links_doc)
  = [Some (s_ "2")] /\
  ~ (map hns_id (parse_teams concat_join (fun l => l) (s_ "https://semafor.hns.family") twin_links_doc)
     = [Some (s_ "1")]).
Proof. vm_compute. split; [reflexivity | discriminate]. Qed.

(** C1 (counterexample): the <h1> text of [hyphen_doc] has the form
    ["<A> - <B> <x>:<y>, <C>"] with A = ["Hajduk-Split"], but the lazy first
    group stops at the first hyphen: the home team comes out as ["Hajduk"]
    and the away team as ["Split - Dinamo"]. *)
Lemma header_hyphenated_home :
  header_title (El "h1" [Tx "Hajduk-Split - Dinamo 1:0, Liga"]) =
    header_of (s_ "Hajduk-Split") (s_ "Dinamo") (s_ "1") (s_ "0") (s_ "Liga") /\
  _parse_header_info hyphen_doc =
    Ok {| home_team := s_ "Hajduk"; away_team := s_ "Split - Dinamo";
          home_score := 1; away_score := 0; competition := s_ "Liga" |} /\
  s_ "Hajduk" <> s_ "Hajduk-Split".
Proof. split; [|split]; [vm_compute; reflexivity | vm_compute; reflexivity | discriminate]. Qed.

(** *** Fixtures: no venue, no match url *)

Definition no_venue_url (f : Fixture) : Prop := fvenue f = None /\ match_url f = None.

Lemma fixtures_of_sibs_no_venue dp doc nt sibs :
  Forall no_venue_url (fixtures_of_sibs dp doc nt sibs).
Proof.
  induction sibs as [|[sp sib] rest IH]; simpl; [constructor|].
  apply Forall_app; split.
  - destruct (_ && _); repeat constructor.
  - destruct (matches_search DATE_STOP_RE _); [constructor | exact IH].
Qed.

Lemma fallback_fixture_no_venue doc pt fs :
  fallback_fixture doc pt = Ok fs -> Forall no_venue_url fs.
Proof.
  unfold fallback_fixture.
  destruct (2 <=? _); [|intros H; inversion H; constructor].
  destruct (re_search SCORE_RE (snd pt)) as [[? ?]|]; intros H; inversion H; subst.
  repeat constructor.
Qed.

Lemma result_concat_forall {A} (P : A -> Prop) (l : list (result (list A))) fs :
  (forall r xs, In r l -> r = Ok xs -> Forall P xs) ->
  result_concat l = Ok fs -> Forall P fs.
Proof.
  revert fs; induction l as [|r l IH]; simpl; intros fs Hall H.
  - inversion H; constructor.
  - destruct r as [x|e]; simpl in H; [|discriminate].
    destruct (result_concat l) as [y|e] eqn:Hy; simpl in H; [|discriminate].
    inversion H; subst. apply Forall_app; split.
    + eapply Hall; [left|]; reflexivity.
    + apply IH; [|reflexivity]. intros; eapply Hall; [right|]; eauto.
Qed.

(** C10: every fixture record that [parse_fixtures] returns, on either
    path, has [venue = None] and [match_url = None]. *)
Theorem parse_fixtures_no_venue_no_url (dateutil_parse : text -> option datetime) (doc : node) :
  match parse_fixtures dateutil_parse doc with
  | Ok fs => Forall (fun f => fvenue f = None /\ match_url f = None) fs
  | Raise _ => True
  end.
Proof.
  unfold parse_fixtures.
  set (fx := flat_map _ _).
  assert (Hfx : Forall no_venue_url fx).
  { unfold fx. apply Forall_flat_map. apply Forall_forall. intros. apply fixtures_of_sibs_no_venue. }
  destruct fx as [|f fx'] eqn:E.
  - destruct (result_concat _) as [fs|e] eqn:Hr; [|exact I].
    eapply result_concat_forall; [|exact Hr].
    intros r xs Hin Hr'. apply in_map_iff in Hin. destruct Hin as [pt [Hpt _]].
    subst r. eapply fallback_fixture_no_venue; eauto.
  - exact Hfx.
Qed.

(** *** Goal teams *)

Lemma dict_get_setdefault {V} (k k' : text) (v : V) m :
  dict_get k (dict_setdefault k' v m) =
  match dict_get k m with
  | Some x => Some x
  | None => if text_eqb k k' then Some v else None
  end.
Proof.
  induction m as [|[k0 v0] m IH]; simpl.
  - unfold text_eqb. destruct (list_eq_dec ascii_dec k k'); reflexivity.
  - destruct (text_eqb k' k0) eqn:E1; simpl.
    + unfold text_eqb in *. destruct (list_eq_dec ascii_dec k k0); [reflexivity|].
      destruct (list_eq_dec ascii_dec k' k0); [|discriminate].
      destruct (dict_get k m); [reflexivity|].
      destruct (list_eq_dec ascii_dec k k'); [congruence|reflexivity].
    + destruct (text_eqb k k0); [reflexivity|]. exact IH.
Qed.

Lemma dict_get_roster k (t : text) (ps : list PlayerInfo) (m : list (text * text)) :
  dict_get k (fold_left (fun m p => dict_setdefault (name p) t m) ps m) =
  match dict_get k m with
  | Some x => Some x
  | None => if existsb (fun p => text_eqb k (name p)) ps then Some t else None
  end.
Proof.
  revert m; induction ps as [|p ps IH]; intros m; simpl.
  - destruct (dict_get k m); reflexivity.
  - rewrite IH, dict_get_setdefault.
    destruct (dict_get k m); [reflexivity|].
    destruct (text_eqb k (name p)); reflexivity.
Qed.

Lemma dict_get_fold_rosters k (L0 : list (text * list PlayerInfo)) (keys : list text) :
  forall (m : list (text * text)) t,
  (forall t', dict_get k m = Some t' -> In t' keys) ->
  (forall tp, In tp L0 -> In (fst tp) keys) ->
  dict_get k (fold_left (fun m tp => fold_left (fun m p => dict_setdefault (name p) (fst tp) m) (snd tp) m) L0 m) = Some t ->
  In t keys.
Proof.
  induction L0 as [|[tn ps] L0 IH]; simpl; intros m t Hm Hk H.
  - exact (Hm _ H).
  - eapply IH; [| intros; apply Hk; right; auto | exact H].
    intros t' Ht'. rewrite dict_get_roster in Ht'.
    destruct (dict_get k m) eqn:E; [inversion Ht'; subst; auto|].
    destruct (existsb _ ps); inversion Ht'; subst.
    apply (Hk (t', ps)). left. reflexivity.
Qed.

Lemma dict_get_player_to_team_key k L t :
  dict_get k (player_to_team L) = Some t -> In t (map fst L).
Proof.
  unfold player_to_team. intros H.
  eapply dict_get_fold_rosters; [| | exact H].
  - intros t' H'. discriminate.
  - intros tp Htp. apply in_map. exact Htp.
Qed.

(** C5: [_attach_goal_teams] keeps scorer and minute and sets the team to a
    key of the lineups mapping or to ["Unknown"]; with the mapping
    [{home: hl, away: al}] the team is the home team when the scorer is on
    the home roster, else the away team when on the away roster, else
    ["Unknown"]. *)
Theorem attach_goal_teams_spec (goals : list GoalEvent) (L : list (text * list PlayerInfo))
  (home away : text) (hl al : list PlayerInfo) :
  Forall (fun g => In (team g) (map fst L) \/ team g = s_ "Unknown") (_attach_goal_teams goals L) /\
  _attach_goal_teams goals [(home, hl); (away, al)] =
  map (fun g => mkGoal (if existsb (fun p => text_eqb (player g) (name p)) hl then home
                        else if existsb (fun p => text_eqb (player g) (name p)) al then away
                        else s_ "Unknown") (player g) (minute g)) goals.
Proof.
  split.
  - unfold _attach_goal_teams. apply Forall_map. apply Forall_forall. intros g _. simpl.
    destruct (dict_get (player g) (player_to_team L)) eqn:E; [left|right; reflexivity].
    eapply dict_get_player_to_team_key; eauto.
  - unfold _attach_goal_teams. apply map_ext. intros g. unfold player_to_team. simpl.
    rewrite !dict_get_roster. simpl.
    destruct (existsb _ hl); [reflexivity|].
    destruct (existsb _ al); reflexivity.
Qed.

Lemma int_of_digits_acc_nonneg s : forall acc, (0 <= acc)%Z ->
  (0 <= fold_left (fun acc c => (acc * 10 + digit_val c)%Z) s acc)%Z.
Proof.
  induction s as [|c s IH]; intros acc H; simpl; [exact H|].
  apply IH. unfold digit_val. lia.
Qed.

Lemma int_of_digits_nonneg s : (0 <= int_of_digits s)%Z.
Proof. apply int_of_digits_acc_nonneg. lia. Qed.

(** *** Standings *)


Lemma parse_row_ok isd intd tds r :
  parse_row isd intd tds = Ok r ->
  py_int (nth 0 tds []) = Some (st_position r) /\
  col_or_0 isd intd tds 2 = Ok (played r) /\ col_or_0 isd intd tds 3 = Ok (wins r) /\
  col_or_0 isd intd tds 4 = Ok (draws r) /\ col_or_0 isd intd tds 5 = Ok (losses r) /\
  col_or_0 isd intd tds 6 = Ok (goals_for r) /\ col_or_0 isd intd tds 7 = Ok (goals_against r) /\
  int_if_digit isd intd (last tds []) = Ok (points r).
Proof.
  unfold parse_row. intros H.
  destruct (py_int (nth 0 tds [])) eqn:Ep; simpl in H; [|discriminate H].
  repeat (match type of H with context [bind ?m _] =>
            let E := fresh "E" in destruct m eqn:E; simpl in H; [|discriminate H] end).
  injection H as <-. simpl. auto 10.
Qed.

Lemma parse_row_position isd intd tds r :
  parse_row isd intd tds = Ok r -> py_int (nth 0 tds []) = Some (st_position r).
Proof. intros H. apply (parse_row_ok isd intd tds r H). Qed.





(** C6 (amended): the rows of one table come out in the table's row
    order (rows that fail are left out), and each position is the integer
    of the row's first cell; nothing makes positions distinct. *)
Theorem parse_rows_positions (isdigit : text -> bool) (int_digits : text -> option N)
  (rows : list (list text)) :
  map (fun r => Some (st_position r)) (parse_rows isdigit int_digits rows) =
  map (fun tds => py_int (nth 0 tds []))
      (filter (fun tds => nonempty_list tds && is_ok (parse_row isdigit int_digits tds)) rows).
Proof.
  induction rows as [|tds rows IH]; simpl; [reflexivity|].
  destruct tds as [|c tds]; simpl; [exact IH|].
  destruct (parse_row isdigit int_digits (c :: tds)) as [r|e] eqn:E; simpl; [|exact IH].
  rewrite IH. f_equal. symmetry. apply (parse_row_position isdigit int_digits (c :: tds)). exact E.
Qed.




(** *** The goals token scanner *)

Ltac fwd_lia :=
  match goal with
  | H : Forall _ ?l |- Forall _ ?l => eapply Forall_impl; [|exact H]; cbn; intros; lia
  end.

Ltac case_suci t :=
  match goal with |- context [starts_with ?x t] => destruct (starts_with x t) end.

Lemma scan_from_fold toks k last goals :
  snd (fold_left goal_step toks (option_map snd last, goals)) =
  goals ++ map fst (scan_from k last toks).
Proof.
  revert k last goals; induction toks as [|t ts IH]; intros k last goals; cbn -[starts_with re_fullmatch].
  - rewrite app_nil_r. reflexivity.
  - destruct (re_fullmatch GOAL_MINUTE_RE t) as [m|] eqn:Em;
      destruct last as [[i l]|]; cbn -[starts_with re_fullmatch].
    + destruct (nonempty l); cbn -[starts_with re_fullmatch].
      * etransitivity; [apply (IH (S k) None)|]; cbn -[starts_with re_fullmatch]; rewrite <- ?app_assoc; reflexivity.
      * apply (IH (S k) (Some (i, l))).
    + etransitivity; [apply (IH (S k) None)|]; cbn -[starts_with re_fullmatch]; rewrite <- ?app_assoc; reflexivity.
    + case_suci t.
      * apply (IH (S k) (Some (i, l))).
      * apply (IH (S k) (Some (k, t))).
    + case_suci t.
      * etransitivity; [apply (IH (S k) None)|]; cbn -[starts_with re_fullmatch]; rewrite <- ?app_assoc; reflexivity.
      * apply (IH (S k) (Some (k, t))).
Qed.

Definition goal_at (all : list text) (e : GoalEvent * (nat * nat)) : Prop :=
  let '(g, (i, j)) := e in
  nth_error all i = Some (player g) /\ team g = [] /\ i < j /\
  exists tok m, nth_error all j = Some tok /\ re_fullmatch GOAL_MINUTE_RE tok = Some m /\
                minute g = int_of_digits (group 1 m).

Lemma chained_cons i j r :
  (match r with (i', _) :: _ => j < i' | [] => True end) -> chained r -> chained ((i, j) :: r).
Proof. destruct r as [|[i' j'] r]; cbn -[starts_with re_fullmatch]; auto. Qed.

Lemma scan_from_props all toks :
  forall k last,
  (forall n, nth_error all (k + n) = nth_error toks n) ->
  (forall i l, last = Some (i, l) -> i < k /\ nth_error all i = Some l) ->
  Forall (goal_at all) (scan_from k last toks) /\
  Forall (fun e => match last with Some (i0, _) => i0 | None => k end <= fst (snd e))
         (scan_from k last toks) /\
  Forall (fun e => k <= snd (snd e)) (scan_from k last toks) /\
  chained (map snd (scan_from k last toks)).
Proof.
  induction toks as [|t ts IH]; intros k last Hall Hlast; cbn -[starts_with re_fullmatch]; [repeat split; constructor|].
  assert (Hall' : forall n, nth_error all (S k + n) = nth_error ts n).
  { intros n. replace (S k + n) with (k + S n) by lia. apply Hall. }
  assert (Ht : nth_error all k = Some t) by (rewrite <- (Nat.add_0_r k); apply Hall).
  destruct (re_fullmatch GOAL_MINUTE_RE t) as [m|] eqn:Em; destruct last as [[i l]|].
  - destruct (Hlast i l eq_refl) as [Hik Hil].
    destruct (nonempty l).
    + destruct (IH (S k) None Hall' ltac:(discriminate)) as [H1 [H2 [H3 H4]]].
      repeat split.
      * constructor; [|exact H1]. cbn -[starts_with re_fullmatch]. repeat split; auto. exists t, m. auto.
      * constructor; [cbn -[starts_with re_fullmatch]; lia|]. eapply Forall_impl; [|exact H2]. cbn -[starts_with re_fullmatch]. intros; lia.
      * constructor; [cbn -[starts_with re_fullmatch]; lia|]. eapply Forall_impl; [|exact H3]. cbn -[starts_with re_fullmatch]. intros; lia.
      * change (chained ((i, k) :: map snd (scan_from (S k) None ts))).
        apply chained_cons; [|exact H4].
        destruct (scan_from (S k) None ts) as [|[g' [i' j']] r] eqn:E; [exact I|].
        inversion H2 as [|x y Hx Hy]; subst. cbn in Hx. exact Hx.
    + destruct (IH (S k) (Some (i, l)) Hall' ltac:(intros i' l' E; inversion E; subst; split; [lia|auto]))
        as [H1 [H2 [H3 H4]]].
      repeat split; auto; fwd_lia.
  - destruct (IH (S k) None Hall' ltac:(discriminate)) as [H1 [H2 [H3 H4]]].
    repeat split; auto; fwd_lia.
  - destruct (Hlast i l eq_refl) as [Hik Hil].
    case_suci t.
    + destruct (IH (S k) (Some (i, l)) Hall' ltac:(intros i' l' E; inversion E; subst; split; [lia|auto]))
        as [H1 [H2 [H3 H4]]].
      repeat split; auto; fwd_lia.
    + destruct (IH (S k) (Some (k, t)) Hall' ltac:(intros i' l' E; inversion E; subst; split; [lia|auto]))
        as [H1 [H2 [H3 H4]]].
      repeat split; auto; fwd_lia.
  - case_suci t.
    + destruct (IH (S k) None Hall' ltac:(discriminate)) as [H1 [H2 [H3 H4]]].
      repeat split; auto; fwd_lia.
    + destruct (IH (S k) (Some (k, t)) Hall' ltac:(intros i' l' E; inversion E; subst; split; [lia|auto]))
        as [H1 [H2 [H3 H4]]].
      repeat split; auto; fwd_lia.
Qed.

(** C4: on the sample tokens the scanner emits (Bruno Berković, 14) and
    (Goran Rubeša, 27) with an empty team; an emission always clears the
    pending name; and for every token list each emitted goal can be given
    the index of its name token and of its minute token so that every
    minute token lies before the next goal's name token: no name token
    serves two minute tokens. *)
Theorem goals_scanner_spec :
  scan_goals sample_goal_tokens =
    [mkGoal [] (s_ "Bruno Berković") 14; mkGoal [] (s_ "Goran Rubeša") 27] /\
  (forall st tok, length (snd (goal_step st tok)) <> length (snd st) ->
                  fst (goal_step st tok) = None) /\
  (forall toks, exists idx : list (nat * nat),
     Forall2 (fun g ij => goal_at toks (g, ij)) (scan_goals toks) idx /\ chained idx).
Proof.
  split; [vm_compute; reflexivity|split].
  - intros [last gs] tok. unfold goal_step.
    destruct (re_fullmatch GOAL_MINUTE_RE tok);
      [destruct last as [l|]; [destruct (nonempty l)|] | case_suci tok];
      cbn; intros H; try reflexivity; exfalso; apply H; reflexivity.
  - intros toks. exists (map snd (scan_from 0 None toks)).
    unfold scan_goals. rewrite (scan_from_fold toks 0 None [] : snd (fold_left goal_step toks (None, [])) = _). simpl.
    destruct (scan_from_props toks toks 0 None (fun n => eq_refl) ltac:(discriminate))
      as [H1 [_ [_ H4]]].
    split; [|exact H4].
    clear H4. induction (scan_from 0 None toks) as [|[g ij] r IHr]; simpl; constructor.
    + inversion H1; subst. destruct ij; assumption.
    + apply IHr. inversion H1; assumption.
Qed.

(** *** Team links *)

Lemma text_eqb_spec a b : text_eqb a b = true <-> a = b.
Proof. unfold text_eqb. destruct (list_eq_dec ascii_dec a b); split; congruence. Qed.

Lemma text_eqb_sym a b : text_eqb a b = text_eqb b a.
Proof.
  unfold text_eqb. destruct (list_eq_dec ascii_dec a b), (list_eq_dec ascii_dec b a); congruence.
Qed.

Lemma dict_set_keys {V} k (v : V) d :
  map fst (dict_set k v d) =
  if existsb (text_eqb k) (map fst d) then map fst d else map fst d ++ [k].
Proof.
  induction d as [|[k' v'] d IH]; simpl; [reflexivity|].
  destruct (text_eqb k k') eqn:E; simpl; [reflexivity|].
  rewrite IH. destruct (existsb _ _); reflexivity.
Qed.

Lemma dict_get_set {V} t k (v : V) d :
  dict_get t (dict_set k v d) = if text_eqb t k then Some v else dict_get t d.
Proof.
  induction d as [|[k' v'] d IH]; simpl.
  - destruct (text_eqb t k); reflexivity.
  - destruct (text_eqb k k') eqn:E; simpl.
    + apply text_eqb_spec in E; subst k'. destruct (text_eqb t k); reflexivity.
    + rewrite IH. destruct (text_eqb t k) eqn:E2; [|reflexivity].
      apply text_eqb_spec in E2; subst t. rewrite E. reflexivity.
Qed.

Lemma dedup_first_snoc l x :
  dedup_first (l ++ [x]) =
  if existsb (text_eqb x) (dedup_first l) then dedup_first l else dedup_first l ++ [x].
Proof. unfold dedup_first. rewrite fold_left_app. reflexivity. Qed.

Lemma existsb_text_eqb_In x l : existsb (text_eqb x) l = true <-> In x l.
Proof.
  rewrite existsb_exists. split.
  - intros [y [Hy E]]. apply text_eqb_spec in E. subst. exact Hy.
  - intros H. exists x. split; [exact H|]. apply text_eqb_spec. reflexivity.
Qed.

Lemma dedup_first_NoDup l : NoDup (dedup_first l).
Proof.
  induction l as [|x l IH] using rev_ind; [constructor|].
  rewrite dedup_first_snoc. destruct (existsb (text_eqb x) (dedup_first l)) eqn:E; [exact IH|].
  apply NoDup_app; [exact IH | repeat constructor; auto |].
  intros y Hy [Hx|[]]. subst y. assert (existsb (text_eqb x) (dedup_first l) = true) by
    (apply existsb_text_eqb_In; exact Hy). congruence.
Qed.

Lemma teams_from_anchors_snoc uj b l a :
  teams_from_anchors uj b (l ++ [a]) =
  if is_team_anchor a then dict_set (anchor_key a) (team_entry uj b a) (teams_from_anchors uj b l)
  else teams_from_anchors uj b l.
Proof. unfold teams_from_anchors. rewrite fold_left_app. reflexivity. Qed.

Lemma teams_from_anchors_keys uj b anchors :
  map fst (teams_from_anchors uj b anchors) = dedup_first (map anchor_key (filter is_team_anchor anchors)).
Proof.
  induction anchors as [|a l IH] using rev_ind; [reflexivity|].
  rewrite teams_from_anchors_snoc, filter_app. simpl.
  destruct (is_team_anchor a); simpl; [|rewrite app_nil_r; exact IH].
  rewrite dict_set_keys, map_app. simpl. rewrite dedup_first_snoc, IH. reflexivity.
Qed.

Lemma teams_from_anchors_get uj b anchors t :
  dict_get t (teams_from_anchors uj b anchors) = option_map (team_entry uj b) (last_team_anchor anchors t).
Proof.
  induction anchors as [|a l IH] using rev_ind; [reflexivity|].
  rewrite teams_from_anchors_snoc. unfold last_team_anchor. rewrite fold_left_app. simpl.
  fold (last_team_anchor l t).
  destruct (is_team_anchor a); simpl; [|exact IH].
  rewrite dict_get_set, text_eqb_sym. destruct (text_eqb (anchor_key a) t); simpl; [reflexivity|exact IH].
Qed.

Lemma dedup_first_nonnil l : l <> [] -> dedup_first l <> [].
Proof.
  intros H. destruct l as [|x l] using rev_ind; [contradiction|].
  rewrite dedup_first_snoc. destruct (existsb (text_eqb x) (dedup_first l)) eqn:E.
  - intros E'. rewrite E' in E. discriminate.
  - intros E'. destruct (dedup_first l); discriminate.
Qed.

(** C8 (amended): on the link path, [parse_teams] keeps one entry per
    distinct visible name, in the order of each name's first link; the
    entry for a name is built from the LAST link with that name (a later
    link overwrites the dict value). *)
Theorem parse_teams_dedup (urljoin : text -> text -> text) (set_iter : list text -> list text)
  (base : text) (doc : node) :
  let cands := filter is_team_anchor (href_anchors doc) in
  map fst (teams_from_anchors urljoin base (href_anchors doc)) = dedup_first (map anchor_key cands) /\
  NoDup (map fst (teams_from_anchors urljoin base (href_anchors doc))) /\
  (forall t, dict_get t (teams_from_anchors urljoin base (href_anchors doc)) =
             option_map (team_entry urljoin base) (last_team_anchor (href_anchors doc) t)) /\
  (cands <> [] ->
   parse_teams urljoin set_iter base doc = map snd (teams_from_anchors urljoin base (href_anchors doc))).
Proof.
  intros cands. split; [apply teams_from_anchors_keys|split; [|split]].
  - rewrite teams_from_anchors_keys. apply dedup_first_NoDup.
  - intros t. apply teams_from_anchors_get.
  - intros Hc. unfold parse_teams.
    destruct (teams_from_anchors urljoin base (href_anchors doc)) eqn:E; [|reflexivity].
    exfalso. pose proof (teams_from_anchors_keys urljoin base (href_anchors doc)) as K.
    rewrite E in K. simpl in K. symmetry in K. revert K. apply dedup_first_nonnil.
    fold cands. destruct cands; [contradiction|discriminate].
Qed.

Lemma parse_teams_dedup_witness :
  filter is_team_anchor (href_anchors twin_links_doc) <> [] /\
  parse_teams concat_join (fun l => l) (s_ "https://x") twin_links_doc =
  map snd (teams_from_anchors concat_join (s_ "https://x") (href_anchors twin_links_doc)).
Proof.
  split; [vm_compute; discriminate|].
  apply (parse_teams_dedup concat_join (fun l => l) (s_ "https://x") twin_links_doc).
  vm_compute. discriminate.
Defined.

(** *** The regex matcher *)

Lemma firstn_cap (w s' : text) : firstn (length (w ++ s') - length s') (w ++ s') = w.
Proof.
  replace (length (w ++ s') - length s') with (length w) by (rewrite length_app; lia).
  rewrite firstn_app, Nat.sub_diag, firstn_all. simpl. apply app_nil_r.
Qed.

Lemma star_greedy_sound p s c k res :
  star_greedy p s c k = Some res ->
  exists w s', s = w ++ s' /\ Forall (fun x => p x = true) w /\ k s' c = Some res.
Proof.
  induction s as [|x s IH]; simpl; intros H.
  - exists [], []. auto.
  - destruct (p x) eqn:Px.
    + destruct (star_greedy p s c k) eqn:E.
      * inversion H; subst. destruct (IH eq_refl) as [w [s' [-> [Hw Hk]]]].
        exists (x :: w), s'. auto.
      * exists [], (x :: s). auto.
    + exists [], (x :: s). auto.
Qed.

Lemma star_lazy_sound p s c k res :
  star_lazy p s c k = Some res ->
  exists w s', s = w ++ s' /\ Forall (fun x => p x = true) w /\ k s' c = Some res.
Proof.
  induction s as [|x s IH]; simpl; intros H.
  - destruct (k [] c) eqn:E; [|discriminate]. exists [], []. inversion H; subst. auto.
  - destruct (k (x :: s) c) eqn:E.
    + inversion H; subst. exists [], (x :: s). auto.
    + destruct (p x) eqn:Px; [|discriminate].
      destruct (IH H) as [w [s' [-> [Hw Hk]]]]. exists (x :: w), s'. auto.
Qed.

Lemma mt_sound r : forall s c k res,
  mt r s c k = Some res ->
  exists w s' c', s = w ++ s' /\ M r w c c' /\ k s' c' = Some res.
Proof.
  induction r as [p|g p|r1 IH1 r2 IH2|n r IH]; intros s c k res H; simpl in H.
  - destruct s as [|x s]; [discriminate|]. destruct (p x) eqn:Px; [|discriminate].
    exists [x], s, c. repeat split; auto. constructor. exact Px.
  - destruct g.
    + destruct (star_greedy_sound _ _ _ _ _ H) as [w [s' [E [Hw Hk]]]].
      exists w, s', c. repeat split; auto. constructor. exact Hw.
    + destruct (star_lazy_sound _ _ _ _ _ H) as [w [s' [E [Hw Hk]]]].
      exists w, s', c. repeat split; auto. constructor. exact Hw.
  - destruct (IH1 _ _ _ _ H) as [w1 [s1 [c1 [E1 [M1 H1]]]]].
    destruct (IH2 _ _ _ _ H1) as [w2 [s2 [c2 [E2 [M2 H2]]]]].
    exists (w1 ++ w2), s2, c2. subst. repeat split; [apply app_assoc | econstructor; eauto | exact H2].
  - destruct (IH _ _ _ _ H) as [w [s' [c' [E [Mw Hk]]]]]. subst s.
    rewrite firstn_cap in Hk. exists w, s', ((n, w) :: c'). repeat split; auto. constructor. exact Mw.
Qed.

Lemma re_match_sound r s m :
  re_match r s = Some m -> exists w s', s = w ++ s' /\ M r w [] m.
Proof.
  unfold re_match. intros H. destruct (mt_sound _ _ _ _ _ H) as [w [s' [c' [E [Mw Hk]]]]].
  inversion Hk; subst. exists w, s'. auto.
Qed.

Lemma ch_eqb_true a b : ch_eqb a b = true -> a = b.
Proof. apply Ascii.eqb_eq. Qed.

Ltac inv_M :=
  repeat match goal with
  | H : M (RSeq _ _) _ _ _ |- _ => inversion H; subst; clear H
  | H : M (RGroup _ _) _ _ _ |- _ => inversion H; subst; clear H
  | H : M (RCls _) _ _ _ |- _ => inversion H; subst; clear H
  | H : M (RStar _ _) _ _ _ |- _ => inversion H; subst; clear H
  end.

Lemma header_re_inv w m :
  M HEADER_RE w [] m ->
  exists w1 w2 w3 w4 w5 u v,
    m = [(5, w5); (4, w4); (3, w3); (2, w2); (1, w1)] /\
    w = u ++ w3 ++ ":"%char :: w4 ++ v /\ In "-"%char u /\
    w3 <> [] /\ w4 <> [] /\ Forall (fun c => is_digit c = true) w3 /\
    Forall (fun c => is_digit c = true) w4.
Proof.
  unfold HEADER_RE, plusL, plusG, star, lit. intros H. inv_M.
  apply ch_eqb_true in H8, H10. subst.
  exists ([x] ++ w18), ([x0] ++ w17), ([x1] ++ w16), ([x2] ++ w15), ([x3] ++ w14).
  exists (([x] ++ w18) ++ w0 ++ ["-"%char] ++ w3 ++ ([x0] ++ w17) ++ ([x4] ++ w13)).
  exists ([x5] ++ w10 ++ [x3] ++ w14).
  repeat split.
  - repeat rewrite <- app_assoc. reflexivity.
  - apply in_app_iff. right. apply in_app_iff. right. left. reflexivity.
  - discriminate.
  - discriminate.
  - constructor; assumption.
  - constructor; assumption.
Qed.

Lemma digit_not_space c : is_digit c = true -> is_space c = false.
Proof.
  unfold is_digit, is_space. intros H. apply andb_true_iff in H as [H1 H2].
  apply Nat.leb_le in H1, H2.
  destruct (9 <=? nat_of_ascii c) eqn:E1, (nat_of_ascii c <=? 13) eqn:E2,
           (28 <=? nat_of_ascii c) eqn:E3, (nat_of_ascii c <=? 32) eqn:E4; simpl; auto;
  repeat match goal with H : (_ <=? _) = true |- _ => apply Nat.leb_le in H end; lia.
Qed.

Lemma digit_not_ch c d : is_digit c = true -> is_digit d = false -> ch_eqb c d = false.
Proof.
  intros Hc Hd. destruct (ch_eqb c d) eqn:E; auto. apply ch_eqb_true in E. subst. congruence.
Qed.

Lemma lstrip_nonspace c t : is_space c = false -> lstrip (c :: t) = c :: t.
Proof. simpl. intros ->. reflexivity. Qed.

Lemma strip_ends t c d :
  is_space c = false -> is_space d = false -> strip (c :: t ++ [d]) = c :: t ++ [d].
Proof.
  intros Hc Hd. unfold strip, rstrip. rewrite lstrip_nonspace by exact Hc.
  change (c :: t ++ [d]) with ((c :: t) ++ [d]). rewrite rev_app_distr. simpl.
  rewrite Hd. simpl. rewrite rev_app_distr, rev_involutive. reflexivity.
Qed.

Lemma dec_us_digits w : forall b acc,
  Forall (fun c => is_digit c = true) w -> (b = true \/ w <> []) ->
  dec_us b acc w = Some (fold_left (fun a c => (a * 10 + digit_val c)%Z) w acc).
Proof.
  induction w as [|c w IH]; intros b acc Hw Hb; simpl.
  - destruct Hb as [-> | Hb]; [reflexivity | congruence].
  - inversion Hw; subst. rewrite H1. apply IH; auto.
Qed.

Lemma py_int_digits w :
  w <> [] -> Forall (fun c => is_digit c = true) w -> py_int w = Some (int_of_digits w).
Proof.
  intros Hne Hw. destruct (exists_last Hne) as [w0 [d Ew]].
  destruct w as [|c t]; [congruence|].
  assert (Hstrip : strip (c :: t) = c :: t).
  { destruct t as [|c' t'].
    - inversion Hw; subst. unfold strip, rstrip. simpl. rewrite digit_not_space by assumption.
      simpl. rewrite digit_not_space by assumption. reflexivity.
    - rewrite Ew. destruct w0 as [|c0 w0]; [discriminate|].
      apply Forall_forall with (x := d) in Hw as Hd; [|rewrite Ew; apply in_or_app; right; left; auto].
      apply Forall_forall with (x := c0) in Hw as Hc0; [|rewrite Ew; left; auto].
      apply strip_ends; apply digit_not_space; assumption. }
  unfold py_int. rewrite Hstrip. inversion Hw; subst.
  rewrite (digit_not_ch c "+"%char), (digit_not_ch c "-"%char) by (auto; reflexivity).
  rewrite dec_us_digits by (auto; right; discriminate). reflexivity.
Qed.

Lemma header_match_ints t m :
  re_match HEADER_RE t = Some m ->
  exists hs as_, py_int (group 3 m) = Some hs /\ py_int (group 4 m) = Some as_.
Proof.
  intros H. destruct (re_match_sound _ _ _ H) as [w [s' [-> Mw]]].
  destruct (header_re_inv _ _ Mw) as [w1 [w2 [w3 [w4 [w5 [u [v [-> [_ [_ [H3 [H4 [D3 D4]]]]]]]]]]]]].
  exists (int_of_digits w3), (int_of_digits w4). simpl.
  split; apply py_int_digits; assumption.
Qed.

Lemma has_score_cons x t : has_score_pattern t = true -> has_score_pattern (x :: t) = true.
Proof.
  intros H. destruct t as [|b [|c r]]; try discriminate. simpl in *. rewrite H. apply orb_true_r.
Qed.

Lemma has_score_app u t : has_score_pattern t = true -> has_score_pattern (u ++ t) = true.
Proof. intros H. induction u as [|a u IH]; simpl; [exact H | apply has_score_cons, IH]. Qed.

Lemma header_match_shape t m :
  re_match HEADER_RE t = Some m -> In "-"%char t /\ has_score_pattern t = true.
Proof.
  intros H. destruct (re_match_sound _ _ _ H) as [w [s' [-> Mw]]].
  destruct (header_re_inv _ _ Mw) as [w1 [w2 [w3 [w4 [w5 [u [v [-> [-> [Hu [H3 [H4 [D3 D4]]]]]]]]]]]]].
  split.
  - apply in_or_app. left. apply in_or_app. left. exact Hu.
  - destruct (exists_last H3) as [w3' [d Ed]]. subst w3.
    destruct w4 as [|e w4]; [congruence|].
    rewrite <- !app_assoc. apply has_score_app. apply has_score_app.
    simpl. apply Forall_app in D3 as [_ D3]. inversion D3; inversion D4; subst.
    rewrite H2, H8. reflexivity.
Qed.


(** C3: [_parse_header_info] raises exactly when the document has no <h1>
    or the normalized <h1> text does not match the header regex (it
    returns [Ok] otherwise); in particular a title without a ['-'] or
    without a digit, [':'], digit run raises. *)
Theorem parse_header_info_raises (doc : node) :
  ((exists e, _parse_header_info doc = Raise e) <->
   (find_tag doc [] (s_ "h1") = None \/
    exists p h1, find_tag doc [] (s_ "h1") = Some (p, h1) /\
                 re_match HEADER_RE (header_title h1) = None)) /\
  (forall p h1, find_tag doc [] (s_ "h1") = Some (p, h1) ->
     ~ In "-"%char (header_title h1) \/ has_score_pattern (header_title h1) = false ->
     exists e, _parse_header_info doc = Raise e).
Proof.
  assert (Hiff : (exists e, _parse_header_info doc = Raise e) <->
     (find_tag doc [] (s_ "h1") = None \/
      exists p h1, find_tag doc [] (s_ "h1") = Some (p, h1) /\
                   re_match HEADER_RE (header_title h1) = None)).
  { unfold _parse_header_info. split.
    - intros [e He]. destruct (find_tag doc [] (s_ "h1")) as [[p h1]|] eqn:F; [right|left; reflexivity].
      exists p, h1. split; [reflexivity|].
      destruct (re_match HEADER_RE (header_title h1)) as [m|] eqn:R; [|reflexivity].
      destruct (header_match_ints _ _ R) as [hs [as_ [E3 E4]]].
      rewrite E3, E4 in He. discriminate.
    - intros [F | [p [h1 [F R]]]]; rewrite F; [|rewrite R]; eexists; reflexivity. }
  split; [exact Hiff|].
  intros p h1 F Hno. apply Hiff. right. exists p, h1. split; [exact F|].
  destruct (re_match HEADER_RE (header_title h1)) as [m|] eqn:R; [|reflexivity].
  apply header_match_shape in R as [Hd Hs]. exfalso. destruct Hno; congruence.
Qed.

Lemma parse_header_info_raises_witness :
  exists e, _parse_header_info nodash_doc = Raise e.
Proof.
  apply (proj2 (parse_header_info_raises nodash_doc) [0]
           (El "h1" [Tx "Hajduk Split 1:0, Liga"])).
  - reflexivity.
  - left. intros H. vm_compute in H. intuition discriminate.
Defined.

(** *** Completeness of the matcher on well-formed headers *)

Lemma star_lazy_unfold p s c k :
  star_lazy p s c k =
  match k s c with
  | Some r => Some r
  | None => match s with x :: s' => if p x then star_lazy p s' c k else None | [] => None end
  end.
Proof. destruct s; reflexivity. Qed.

Lemma lazy_ok p u s1 c k res :
  Forall (fun x => p x = true) u ->
  (forall u1 u2, u = u1 ++ u2 -> u2 <> [] -> k (u2 ++ s1) c = None) ->
  k s1 c = Some res -> star_lazy p (u ++ s1) c k = Some res.
Proof.
  induction u as [|x u IH]; intros Hu Hf Hk; cbn [app]; rewrite star_lazy_unfold.
  - rewrite Hk. reflexivity.
  - pose proof (Hf [] (x :: u) eq_refl ltac:(discriminate)) as Ek. simpl in Ek. rewrite Ek.
    inversion Hu; subst. simpl. rewrite H1. apply IH; auto.
    intros u1 u2 E Hne. apply (Hf (x :: u1) u2); [rewrite E; reflexivity | exact Hne].
Qed.

Lemma greedy_ok p u s1 c k res :
  Forall (fun x => p x = true) u ->
  (forall x s2, s1 = x :: s2 -> p x = false) ->
  k s1 c = Some res -> star_greedy p (u ++ s1) c k = Some res.
Proof.
  induction u as [|x u IH]; intros Hu Hs Hk; simpl.
  - destruct s1 as [|x s2]; simpl; [exact Hk|]. rewrite (Hs x s2 eq_refl). exact Hk.
  - inversion Hu; subst. rewrite H1, IH; auto.
Qed.

Lemma seq_star_ok p r u rest c k res :
  Forall (fun x => p x = true) u ->
  (forall x s2, rest = x :: s2 -> p x = false) ->
  mt r rest c k = Some res -> mt (RSeq (RStar true p) r) (u ++ rest) c k = Some res.
Proof. intros Hu Hs Hk. simpl. apply greedy_ok; assumption. Qed.

Lemma seq_lit_ok x r s c k : mt (RSeq (lit x) r) (x :: s) c k = mt r s c k.
Proof. simpl. unfold ch_eqb. rewrite Ascii.eqb_refl. reflexivity. Qed.

Lemma seq_plus_ok p r d u rest c k res :
  p d = true -> Forall (fun x => p x = true) u ->
  (forall x s2, rest = x :: s2 -> p x = false) ->
  mt r rest c k = Some res -> mt (RSeq (plusG p) r) (d :: u ++ rest) c k = Some res.
Proof. intros Hd Hu Hs Hk. simpl. rewrite Hd. apply greedy_ok; assumption. Qed.

Lemma firstn_cap_cons (d : ascii) (u s' : text) :
  firstn (length (d :: u ++ s') - length s') (d :: u ++ s') = d :: u.
Proof. exact (firstn_cap (d :: u) s'). Qed.

Lemma seq_group_plus_ok n p r d u rest c k res :
  p d = true -> Forall (fun x => p x = true) u ->
  (forall x s2, rest = x :: s2 -> p x = false) ->
  mt r rest ((n, d :: u) :: c) k = Some res ->
  mt (RSeq (RGroup n (plusG p)) r) (d :: u ++ rest) c k = Some res.
Proof.
  intros Hd Hu Hs Hk. cbn [mt plusG]. rewrite Hd. apply greedy_ok; [assumption|assumption|].
  rewrite firstn_cap_cons. exact Hk.
Qed.

Lemma group_plus_end n p d u c k res :
  p d = true -> Forall (fun x => p x = true) u ->
  k [] ((n, d :: u) :: c) = Some res ->
  mt (RGroup n (plusG p)) (d :: u) c k = Some res.
Proof.
  intros Hd Hu Hk. cbn [mt plusG]. rewrite Hd. rewrite <- (app_nil_r u) at 1.
  apply greedy_ok; [assumption|discriminate|].
  replace (length (d :: u) - length (@nil ascii)) with (length (d :: u)) by (simpl; lia). rewrite firstn_all. exact Hk.
Qed.

Lemma seq_lazy_group_ok n p r a u rest c k res :
  p a = true -> Forall (fun x => p x = true) u ->
  (forall u1 u2 c', u = u1 ++ u2 -> u2 <> [] -> mt r (u2 ++ rest) c' k = None) ->
  mt r rest ((n, a :: u) :: c) k = Some res ->
  mt (RSeq (RGroup n (plusL p)) r) (a :: u ++ rest) c k = Some res.
Proof.
  intros Ha Hu Hf Hk. cbn [mt plusL]. rewrite Ha. apply lazy_ok; [assumption| |].
  - intros u1 u2 E Hne. apply (Hf u1 u2); assumption.
  - rewrite firstn_cap_cons. exact Hk.
Qed.

(** Where the lazy groups of [HEADER_RE] cannot stop early. *)
Lemma dash_stop u0 z tail w r :
  ~ In "-"%char (u0 ++ [z]) -> is_space z = false ->
  Forall (fun x => is_space x = true) w ->
  u0 ++ z :: " "%char :: tail = w ++ "-"%char :: r -> False.
Proof.
  revert w. induction u0 as [|b u0 IH]; intros w Hn Hz Hw E.
  - destruct w as [|w0 w]; simpl in E; inversion E; subst.
    + apply Hn. left. reflexivity.
    + inversion Hw; congruence.
  - destruct w as [|w0 w]; simpl in E; inversion E; subst.
    + apply Hn. left. reflexivity.
    + inversion Hw; subst. apply (IH w); auto. intros Hi. apply Hn. right. exact Hi.
Qed.

Lemma digits_colon_stop v tail ds r :
  ~ In ":"%char v -> Forall (fun x => is_digit x = true) ds ->
  v ++ " "%char :: tail = ds ++ ":"%char :: r -> False.
Proof.
  revert ds. induction v as [|b v IH]; intros ds Hn Hd E.
  - destruct ds as [|d ds]; simpl in E; inversion E; subst. inversion Hd. discriminate.
  - destruct ds as [|d ds]; simpl in E; inversion E; subst.
    + apply Hn. left. reflexivity.
    + inversion Hd; subst. apply (IH ds); auto. intros Hi. apply Hn. right. exact Hi.
Qed.

Lemma colon_stop u0 z tail sp ds r :
  ~ In ":"%char (u0 ++ [z]) -> is_space z = false ->
  Forall (fun x => is_space x = true) sp -> Forall (fun x => is_digit x = true) ds ->
  ds <> [] ->
  u0 ++ z :: " "%char :: tail = sp ++ ds ++ ":"%char :: r -> False.
Proof.
  revert sp. induction u0 as [|b u0 IH]; intros sp Hn Hz Hsp Hd Hne E.
  - destruct sp as [|s0 sp]; simpl in E.
    + destruct ds as [|d ds]; [congruence|]. inversion E; subst.
      inversion Hd; subst. apply (digits_colon_stop [] tail ds r); auto.
    + inversion E; subst. inversion Hsp; congruence.
  - destruct sp as [|s0 sp]; simpl in E.
    + destruct ds as [|d ds]; [congruence|]. inversion E; subst. inversion Hd; subst.
      apply (digits_colon_stop (u0 ++ [z]) tail ds r);
        [intros Hi; apply Hn; right; exact Hi | assumption | rewrite <- app_assoc; exact H1].
    + inversion E; subst. inversion Hsp; subst. apply (IH sp); auto.
      intros Hi. apply Hn. right. exact Hi.
Qed.

Lemma trimmed_inv t :
  trimmed_name t = true ->
  exists a u, t = a :: u /\ is_space a = false /\ is_space (last t a) = false /\
              Forall (fun x => any_ch x = true) t.
Proof.
  destruct t as [|a u]; [discriminate|]. unfold trimmed_name.
  intros H. apply andb_true_iff in H as [H H3]. apply andb_true_iff in H as [H1 H2].
  exists a, u. apply negb_true_iff in H1, H2. repeat split; auto.
  apply Forall_forall. intros x Hx. apply forallb_forall with (x := x) in H3; auto.
Qed.

Lemma digit_str_inv t :
  digit_str t = true ->
  exists d u, t = d :: u /\ Forall (fun x => is_digit x = true) t.
Proof.
  destruct t as [|d u]; [discriminate|]. intros H. exists d, u. split; [reflexivity|].
  apply Forall_forall. intros x Hx. apply forallb_forall with (x := x) in H; auto.
Qed.

Lemma strip_trimmed t : trimmed_name t = true -> strip t = t.
Proof.
  intros H. destruct (trimmed_inv t H) as [a [u [-> [Ha [Hl _]]]]].
  destruct u as [|b u] using rev_ind.
  - unfold strip, rstrip. simpl. rewrite Ha. simpl. rewrite Ha. reflexivity.
  - rewrite app_comm_cons, last_last in Hl. apply strip_ends; assumption.
Qed.

Lemma last_suffix (a z : ascii) u1 u0 : last (a :: u1 ++ u0 ++ [z]) a = z.
Proof. rewrite app_comm_cons, app_assoc, last_last. reflexivity. Qed.

Ltac stop_char := intros ? ? Es; inversion Es; subst; first [reflexivity | assumption | apply digit_not_space; assumption].

Lemma header_re_complete A B X Y C :
  trimmed_name A = true -> trimmed_name B = true -> trimmed_name C = true ->
  ~ In "-"%char A -> ~ In ":"%char B -> digit_str X = true -> digit_str Y = true ->
  re_match HEADER_RE (header_of A B X Y C) = Some [(5, C); (4, Y); (3, X); (2, B); (1, A)].
Proof.
  intros HA HB HC HnA HnB HX HY.
  destruct (trimmed_inv A HA) as [a [At [EA [Ha [HlA FA]]]]].
  destruct (trimmed_inv B HB) as [b [Bt [EB [Hb [HlB FB]]]]].
  destruct (trimmed_inv C HC) as [c0 [Ct [EC [Hc [_ FC]]]]].
  destruct (digit_str_inv X HX) as [x [Xt [EX FX]]].
  destruct (digit_str_inv Y HY) as [y [Yt [EY FY]]].
  subst A B C X Y.
  inversion FA; inversion FB; inversion FC; inversion FX; inversion FY; subst.
  unfold re_match, header_of, HEADER_RE, s_. cbn [list_ascii_of_string app].
  apply seq_lazy_group_ok; [assumption|assumption| |].
  { intros u1 u2 c' E Hne.
    destruct (mt _ _ c' _) eqn:R; [exfalso|reflexivity].
    apply mt_sound in R as [w [s' [c'' [Ew [Mw _]]]]].
    unfold star, lit, plusL, plusG in Mw. inv_M.
    match goal with H : ch_eqb ?x "-"%char = true |- _ => apply ch_eqb_true in H; subst x end.
    destruct (exists_last Hne) as [u0 [z Ez]]. subst u2. try subst At.
    rewrite last_suffix in HlA.
    rewrite <- !app_assoc in Ew.
    eapply (dash_stop u0 z); [| exact HlA | eassumption | exact Ew].
    intros Hi. apply HnA. right. apply in_or_app. right. exact Hi. }
  apply (seq_star_ok is_space _ [" "%char]); [repeat constructor | stop_char |].
  rewrite seq_lit_ok.
  apply (seq_star_ok is_space _ [" "%char]); [repeat constructor | stop_char |].
  apply seq_lazy_group_ok; [assumption|assumption| |].
  { intros u1 u2 c' E Hne.
    destruct (mt _ _ c' _) eqn:R; [exfalso|reflexivity].
    apply mt_sound in R as [w [s' [c'' [Ew [Mw _]]]]].
    unfold star, lit, plusL, plusG in Mw. inv_M.
    match goal with H : ch_eqb ?x ":"%char = true |- _ => apply ch_eqb_true in H; subst x end.
    destruct (exists_last Hne) as [u0 [z Ez]]. subst u2. try subst Bt.
    rewrite last_suffix in HlB.
    rewrite <- !app_assoc in Ew.
    match type of Ew with
    | _ = [?s0] ++ ?sp ++ [?d0] ++ ?ds ++ _ =>
        eapply (colon_stop u0 z _ (s0 :: sp) (d0 :: ds) _); [| exact HlB | | | discriminate | exact Ew]
    end; [intros Hi; apply HnB; right; apply in_or_app; right; exact Hi
         | constructor; assumption | constructor; assumption]. }
  apply (seq_plus_ok _ _ " "%char []); [reflexivity | constructor | stop_char |].
  apply seq_group_plus_ok; [assumption | assumption | stop_char |].
  rewrite seq_lit_ok.
  apply seq_group_plus_ok; [assumption | assumption | stop_char |].
  rewrite seq_lit_ok.
  apply (seq_star_ok is_space _ [" "%char]); [repeat constructor | stop_char |].
  apply group_plus_end; [assumption | assumption | reflexivity].
Qed.

(** C1 (amended): when the normalized <h1> text is
    ["<A> - <B> <x>:<y>, <C>"] with A, B, C nonempty one-line names without
    surrounding whitespace, x and y digit runs, no ['-'] in A and no [':']
    in B, [_parse_header_info] returns exactly A, B, int(x), int(y) and C. *)
Theorem parse_header_info_valid doc p h1 A B X Y C :
  find_tag doc [] (s_ "h1") = Some (p, h1) ->
  header_title h1 = header_of A B X Y C ->
  trimmed_name A = true -> trimmed_name B = true -> trimmed_name C = true ->
  ~ In "-"%char A -> ~ In ":"%char B -> digit_str X = true -> digit_str Y = true ->
  _parse_header_info doc =
  Ok {| home_team := A; away_team := B;
        home_score := int_of_digits X; away_score := int_of_digits Y;
        competition := C |}.
Proof.
  intros F T HA HB HC HnA HnB HX HY.
  unfold _parse_header_info. rewrite F. cbv zeta. rewrite T.
  rewrite header_re_complete by assumption. cbn [group find fst Nat.eqb snd].
  destruct (digit_str_inv X HX) as [x [Xt [EX FX]]].
  destruct (digit_str_inv Y HY) as [y [Yt [EY FY]]].
  rewrite !py_int_digits by (subst; (discriminate || assumption)).
  rewrite !strip_trimmed by assumption. reflexivity.
Qed.

Lemma parse_header_info_valid_witness :
  _parse_header_info hajduk_doc =
  Ok {| home_team := s_ "NK Hajduk 1932"; away_team := s_ "NK Croatia Gabrili";
        home_score := int_of_digits (s_ "4"); away_score := int_of_digits (s_ "3");
        competition := s_ "1. ZNL 25/26" |}.
Proof.
  apply (parse_header_info_valid hajduk_doc [0]
           (El "h1" [Tx "  NK Hajduk 1932 - NK Croatia   Gabrili 4:3, 1. ZNL 25/26 "])).
  - reflexivity.
  - vm_compute. reflexivity.
  - reflexivity.
  - reflexivity.
  - reflexivity.
  - intros H. vm_compute in H. intuition discriminate.
  - intros H. vm_compute in H. intuition discriminate.
  - reflexivity.
  - reflexivity.
Defined.

(** ** Further properties of the scrapers *)

Lemma find_all_string_pred doc p pred pt :
  In pt (find_all_string doc p pred) -> pred (snd pt) = true.
Proof. unfold find_all_string. intros H. apply filter_In in H. apply H. Qed.

(** *** Fixtures *)

Lemma fixtures_of_sibs_goals dp doc nt sibs :
  Forall (fun f => home_goals f <> None /\ away_goals f <> None) (fixtures_of_sibs dp doc nt sibs).
Proof.
  induction sibs as [|[sp sib] rest IH]; simpl; [constructor|].
  apply Forall_app; split.
  - destruct (_ && matches_search SCORE_RE _) eqn:G; [|constructor].
    apply andb_true_iff in G as [_ G]. unfold matches_search in G.
    destruct (re_search SCORE_RE _) as [[i m]|]; [|discriminate].
    repeat constructor; discriminate.
  - destruct (matches_search DATE_STOP_RE _); [constructor | exact IH].
Qed.

Lemma fallback_fixture_ok doc pt :
  matches_search SCORE_RE (snd pt) = true ->
  exists fs, fallback_fixture doc pt = Ok fs /\
             Forall (fun f => home_goals f <> None /\ away_goals f <> None) fs.
Proof.
  unfold fallback_fixture, matches_search. intros H.
  destruct (2 <=? _); [|eexists; split; [reflexivity|constructor]].
  destruct (re_search SCORE_RE (snd pt)) as [[i m]|]; [|discriminate].
  eexists; split; [reflexivity|]. repeat constructor; discriminate.
Qed.

Lemma result_concat_ok {A} (P : A -> Prop) (l : list (result (list A))) :
  (forall r, In r l -> exists xs, r = Ok xs /\ Forall P xs) ->
  exists fs, result_concat l = Ok fs /\ Forall P fs.
Proof.
  induction l as [|r l IH]; simpl; intros H; [exists []; split; [reflexivity|constructor]|].
  destruct (H r (or_introl eq_refl)) as [xs [-> Hxs]].
  destruct IH as [ys [Hys Hp]]; [intros; apply H; right; assumption|].
  simpl. rewrite Hys. simpl. exists (xs ++ ys). split; [reflexivity|]. apply Forall_app. auto.
Qed.

Lemma parse_fixtures_ok dp doc :
  exists fs, parse_fixtures dp doc = Ok fs /\
             Forall (fun f => home_goals f <> None /\ away_goals f <> None) fs.
Proof.
  unfold parse_fixtures.
  set (fx := flat_map _ _).
  assert (Hfx : Forall (fun f => home_goals f <> None /\ away_goals f <> None) fx).
  { unfold fx. apply Forall_flat_map. apply Forall_forall. intros. apply fixtures_of_sibs_goals. }
  destruct fx as [|f fx'] eqn:E; [|eexists; split; [reflexivity|exact Hfx]].
  apply result_concat_ok. intros r Hr. apply in_map_iff in Hr as [pt [<- Hpt]].
  apply fallback_fixture_ok. exact (find_all_string_pred _ _ _ _ Hpt).
Qed.

(** [parse_fixtures] never raises: the fallback's [score_match.group(1)]
    runs on a string found by the very same score regex, so the
    [AttributeError] branch is unreachable; and every fixture it returns,
    on either path, carries both goal counts. *)
Theorem parse_fixtures_never_raises (dateutil_parse : text -> option datetime) (doc : node) :
  exists fs, parse_fixtures dateutil_parse doc = Ok fs /\
             Forall (fun f => home_goals f <> None /\ away_goals f <> None) fs.
Proof. apply parse_fixtures_ok. Qed.

(** *** Teams *)

Lemma dict_set_In {V} k (v : V) d :
  NoDup (map fst d) -> forall k' x, In (k', x) (dict_set k v d) ->
  (k' = k /\ x = v) \/ (k' <> k /\ In (k', x) d).
Proof.
  induction d as [|[k0 v0] d IH]; simpl; intros Hnd k' x H.
  - destruct H as [H|[]]. inversion H; subst. left; auto.
  - inversion Hnd as [|? ? Hn Hnd']; subst.
    destruct (text_eqb k k0) eqn:E.
    + apply text_eqb_spec in E; subst k0. destruct H as [H|H].
      * inversion H; subst. left; auto.
      * right. split; [|right; exact H]. intros ->. apply Hn. apply in_map_iff. exists (k, x); auto.
    + destruct H as [H|H].
      * inversion H; subst. right. split; [|left; reflexivity].
        intros ->. rewrite (proj2 (text_eqb_spec k k) eq_refl) in E. discriminate.
      * destruct (IH Hnd' k' x H) as [?|[? ?]]; [left; assumption|right; auto].
Qed.

Lemma dict_set_NoDup {V} k (v : V) d : NoDup (map fst d) -> NoDup (map fst (dict_set k v d)).
Proof.
  intros H. rewrite dict_set_keys. destruct (existsb (text_eqb k) (map fst d)) eqn:E; [exact H|].
  apply NoDup_app; [exact H | repeat constructor; auto |].
  intros y Hy [<-|[]]. apply (proj2 (existsb_text_eqb_In k _)) in Hy. congruence.
Qed.

Lemma dict_set_inv {V} (P : text -> V -> Prop) k v d :
  NoDup (map fst d) -> P k v -> (forall k' x, In (k', x) d -> P k' x) ->
  NoDup (map fst (dict_set k v d)) /\ (forall k' x, In (k', x) (dict_set k v d) -> P k' x).
Proof.
  intros Hnd Hp Hd. split; [apply dict_set_NoDup; exact Hnd|].
  intros k' x H. destruct (dict_set_In k v d Hnd k' x H) as [[-> ->]|[_ H']]; auto.
Qed.

Lemma keys_names (d : list (text * TeamInfo)) :
  (forall k x, In (k, x) d -> tname x = k) -> map tname (map snd d) = map fst d.
Proof.
  induction d as [|[k x] d IH]; simpl; intros H; [reflexivity|].
  rewrite (H k x (or_introl eq_refl)), IH; [reflexivity|]. intros; apply H; right; assumption.
Qed.

Lemma teams_from_anchors_inv uj b anchors :
  NoDup (map fst (teams_from_anchors uj b anchors)) /\
  (forall k x, In (k, x) (teams_from_anchors uj b anchors) -> tname x = k).
Proof.
  induction anchors as [|a l [IH1 IH2]] using rev_ind; [split; [constructor|intros ? ? []]|].
  rewrite teams_from_anchors_snoc. destruct (is_team_anchor a); [|split; assumption].
  apply (dict_set_inv (fun k x => tname x = k)); [exact IH1 | reflexivity | exact IH2].
Qed.

Lemma fallback_teams_inv (P : text -> TeamInfo -> Prop) l d :
  (forall t, In t l -> P t (mkTeam t None None None)) ->
  NoDup (map fst d) -> (forall k x, In (k, x) d -> P k x) ->
  let r := fold_left (fun teams t => dict_set t (mkTeam t None None None) teams) l d in
  NoDup (map fst r) /\ (forall k x, In (k, x) r -> P k x).
Proof.
  revert d; induction l as [|t l IH]; simpl; intros d Hl Hnd Hd; [split; assumption|].
  destruct (dict_set_inv P t (mkTeam t None None None) d Hnd (Hl t (or_introl eq_refl)) Hd) as [H1 H2].
  apply IH; auto.
Qed.

Lemma teams_from_anchors_nil uj b anchors :
  filter is_team_anchor anchors = [] -> teams_from_anchors uj b anchors = [].
Proof.
  intros H. pose proof (teams_from_anchors_keys uj b anchors) as K. rewrite H in K.
  destruct (teams_from_anchors uj b anchors); [reflexivity|discriminate].
Qed.

(** The team names that [parse_teams] returns are pairwise distinct, on
    the link path and on the fallback path alike: both key a dict by the
    name they store. *)
Theorem parse_teams_names_distinct urljoin set_iter base_url doc :
  NoDup (map tname (parse_teams urljoin set_iter base_url doc)).
Proof.
  unfold parse_teams.
  destruct (teams_from_anchors_inv urljoin base_url (href_anchors doc)) as [H1 H2].
  destruct (teams_from_anchors urljoin base_url (href_anchors doc)) as [|kv l] eqn:E.
  - match goal with |- context [fold_left ?f (set_iter ?c) []] =>
      destruct (fallback_teams_inv (fun k x => tname x = k) (set_iter c) []
                  ltac:(reflexivity) ltac:(constructor) ltac:(intros ? ? [])) as [F1 F2] end.
    rewrite keys_names by exact F2. exact F1.
  - rewrite keys_names by exact H2. exact H1.
Qed.

(** When no link qualifies as a team link, every entry of [parse_teams]
    comes from the fallback: its url, crest and id are [None] and its name
    passes the club-prefix test ([NK], [HNK], ... followed by a word
    boundary). The iteration order of the [set] is left open; it only
    yields members of the set. *)
Theorem parse_teams_fallback_entries urljoin set_iter base_url doc :
  (forall l x, In x (set_iter l) -> In x l) ->
  filter is_team_anchor (href_anchors doc) = [] ->
  Forall (fun t => turl t = None /\ crest t = None /\ hns_id t = None /\
                   club_prefix_re (tname t) = true)
         (parse_teams urljoin set_iter base_url doc).
Proof.
  intros Hset Hnone. unfold parse_teams. rewrite teams_from_anchors_nil by exact Hnone.
  set (cands := filter club_prefix_re _).
  destruct (fallback_teams_inv
              (fun k x => x = mkTeam k None None None /\ club_prefix_re k = true) (set_iter cands) []
              ltac:(intros t Ht; split; [reflexivity|];
                    apply Hset in Ht; unfold cands in Ht; apply filter_In in Ht; apply Ht)
              ltac:(constructor) ltac:(intros ? ? [])) as [_ F].
  apply Forall_forall. intros t Ht. apply in_map_iff in Ht as [[k x] [<- Hin]].
  destruct (F k x Hin) as [-> Hc]. simpl. auto.
Qed.

(** *** Standings *)

Lemma int_if_digit_nonneg isd intd t z : int_if_digit isd intd t = Ok z -> (0 <= z)%Z.
Proof.
  unfold int_if_digit. destruct (isd t); [|intros H; injection H as <-; lia].
  destruct (intd t); intros H; [injection H as <-; lia|discriminate H].
Qed.

Lemma col_or_0_nonneg isd intd tds i z : col_or_0 isd intd tds i = Ok z -> (0 <= z)%Z.
Proof.
  unfold col_or_0. destruct (nth_error tds i); [apply int_if_digit_nonneg|].
  intros H; injection H as <-; lia.
Qed.

Lemma parse_rows_forall isd intd (P : StandingsRow -> Prop) rows :
  (forall tds r, parse_row isd intd tds = Ok r -> P r) -> Forall P (parse_rows isd intd rows).
Proof.
  intros H. induction rows as [|tds rows IH]; simpl; [constructor|].
  destruct tds as [|c tds]; [exact IH|].
  destruct (parse_row isd intd (c :: tds)) eqn:E; [constructor; [eapply H; exact E|exact IH]|exact IH].
Qed.

(** Every row of [parse_standings] has non-negative played, wins, draws,
    losses, goals for, goals against and points: a cell that fails
    [isdigit()] gives 0, one that passes it is a natural number or the row
    is dropped. (The position is [int(...)] and may be negative.) *)
Theorem parse_standings_counts_nonneg (isdigit : text -> bool) (int_digits : text -> option N) doc :
  Forall (fun r => (0 <= played r)%Z /\ (0 <= wins r)%Z /\ (0 <= draws r)%Z /\
                   (0 <= losses r)%Z /\ (0 <= goals_for r)%Z /\
                   (0 <= goals_against r)%Z /\ (0 <= points r)%Z)
         (parse_standings isdigit int_digits doc).
Proof.
  unfold parse_standings, standings_per_table. apply Forall_forall. intros r Hr.
  apply in_concat in Hr as [rows [Hrows Hr]]. apply in_map_iff in Hrows as [tpn [<- _]].
  revert r Hr. apply Forall_forall. apply parse_rows_forall.
  intros tds r E.
  destruct (parse_row_ok _ _ _ _ E) as [_ [H2 [H3 [H4 [H5 [H6 [H7 H8]]]]]]].
  repeat split; eauto using col_or_0_nonneg, int_if_digit_nonneg.
Qed.

(** A table row with a single cell is dropped, even when that cell is a
    valid position: [tr.find_all("td")[1]] raises [IndexError] inside the
    [try], and the row is skipped. *)
Theorem parse_rows_drops_single_cell (isdigit : text -> bool) (int_digits : text -> option N)
  (t : text) rows :
  parse_rows isdigit int_digits ([t] :: rows) = parse_rows isdigit int_digits rows.
Proof.
  simpl. unfold parse_row. destruct (py_int (nth 0 [t] [])); reflexivity.
Qed.

(** *** Team blocks *)

(** [_iterate_team_blocks] returns at most two blocks, one per team name
    of the title. *)
Theorem iterate_team_blocks_at_most_two doc : length (_iterate_team_blocks doc) <= 2.
Proof.
  unfold _iterate_team_blocks.
  destruct (find_tag doc [] (s_ "h1")) as [[p h1]|]; simpl; [|lia].
  destruct (re_match TEAMS_RE _); simpl; [|lia].
  destruct (find_string doc [] _) as [[? ?]|]; destruct (find_string doc [] _) as [[? ?]|]; simpl; lia.
Qed.

(** *** Date, time and venue *)

Lemma strptime_dt_valid a b d :
  strptime_dt a b = Ok d ->
  (1 <= year d)%Z /\ (1 <= month d <= 12)%Z /\
  (1 <= day d <= days_in_month (year d) (month d))%Z /\
  (0 <= hour d <= 23)%Z /\ (0 <= minutes d <= 59)%Z.
Proof.
  unfold strptime_dt. intros H.
  match type of H with (if ?c then _ else _) = _ => destruct c eqn:C end; [|discriminate].
  pose proof (int_of_digits_nonneg (firstn 2 b)) as Hh. pose proof (int_of_digits_nonneg (skipn 3 b)) as Hm.
  revert Hh Hm C H. generalize (int_of_digits (firstn 4 (skipn 6 a))) (int_of_digits (firstn 2 (skipn 3 a)))
    (int_of_digits (firstn 2 a)) (int_of_digits (firstn 2 b)) (int_of_digits (skipn 3 b)).
  intros y mo dd h mi Hh Hm C H. injection H as <-. simpl.
  repeat rewrite andb_true_iff in C. rewrite !Z.leb_le in C. lia.
Qed.

Lemma strptime_dt_raise a b e : strptime_dt a b = Raise e -> e = ValueError.
Proof.
  unfold strptime_dt. destruct (_ && _); intros H; inversion H; reflexivity.
Qed.

(** [_parse_datetime_and_venue] raises only [ValueError] (from
    [strptime]); otherwise a venue or city is found only together with a
    date, a city only together with a venue, and the date is a valid
    calendar date with a valid time of day. *)
Theorem parse_datetime_and_venue_shape doc :
  match _parse_datetime_and_venue doc with
  | Ok (v, c, dt) =>
      (dt = None -> v = None /\ c = None) /\ (c <> None -> v <> None) /\
      (forall d, dt = Some d ->
         (1 <= year d)%Z /\ (1 <= month d <= 12)%Z /\
         (1 <= day d <= days_in_month (year d) (month d))%Z /\
         (0 <= hour d <= 23)%Z /\ (0 <= minutes d <= 59)%Z)
  | Raise e => e = ValueError
  end.
Proof.
  unfold _parse_datetime_and_venue.
  destruct (find_all_string doc [] (matches_search DATETIME_RE)) as [|[p t0] rest].
  { repeat split; congruence. }
  destruct (re_search DATETIME_RE (strip t0)) as [[st m]|].
  2: { repeat split; congruence. }
  destruct (strptime_dt (group 1 m) (group 2 m)) as [d|e] eqn:Es; simpl.
  - pose proof (strptime_dt_valid _ _ _ Es) as V.
    destruct (nonempty _).
    + destruct (map strip _) as [|a [|b l]]; cbv beta iota;
        (refine (conj _ (conj _ _)); [congruence | congruence |];
         intros d' Hd; inversion Hd; subst; exact V).
    + refine (conj _ (conj _ _)); [congruence | congruence |].
      intros d' Hd; inversion Hd; subst; exact V.
  - exact (strptime_dt_raise _ _ _ Es).
Qed.

(** *** Goals block *)

Lemma goal_minute_fullmatch t m :
  re_fullmatch GOAL_MINUTE_RE t = Some m ->
  exists ds, digit_str ds = true /\ t = ds ++ ["'"%char] /\ group 1 m = ds.
Proof.
  unfold re_fullmatch. intros H.
  destruct (mt_sound _ _ _ _ _ H) as [w [s' [c' [E [Mw Hk]]]]].
  destruct s'; [|discriminate]. inversion Hk; subst; clear Hk.
  unfold GOAL_MINUTE_RE, plusG, lit in Mw. inv_M.
  match goal with Hc : ch_eqb ?a "'"%char = true |- _ => apply ch_eqb_true in Hc; subst a end.
  match goal with |- context [group 1 [(1, ?w)]] => exists w end.
  split; [|split; [rewrite app_nil_r; reflexivity | reflexivity]].
  simpl. match goal with Hx : is_digit ?y = true, Hw : Forall _ ?w |- _ =>
    rewrite Hx; simpl; apply forallb_forall, Forall_forall; exact Hw end.
Qed.

Lemma goal_step_inv (st : option text * list GoalEvent) tok :
  let P := fun g => team g = [] /\ nonempty (player g) = true /\
                    re_fullmatch GOAL_MINUTE_RE (player g) = None /\
                    starts_with (s_ "Suci") (player g) = false /\ (0 <= minute g)%Z in
  let L := fun (o : option text) => forall l, o = Some l ->
             re_fullmatch GOAL_MINUTE_RE l = None /\ starts_with (s_ "Suci") l = false in
  L (fst st) -> Forall P (snd st) ->
  L (fst (goal_step st tok)) /\ Forall P (snd (goal_step st tok)).
Proof.
  intros P L. destruct st as [ln gs]. unfold goal_step, fst, snd. intros Hl Hg.
  destruct (re_fullmatch GOAL_MINUTE_RE tok) as [m|] eqn:F.
  - destruct ln as [l|]; [|split; assumption].
    destruct (nonempty l) eqn:Ne; [|split; assumption].
    split; [intros ? H; discriminate|].
    apply Forall_app. split; [exact Hg|]. constructor; [|constructor].
    destruct (Hl l eq_refl) as [H1 H2]. unfold P. simpl.
    repeat split; try assumption. apply int_of_digits_nonneg.
  - destruct (starts_with (s_ "Suci") tok) eqn:S; [split; assumption|].
    split; [|exact Hg]. intros l H. injection H as <-. split; assumption.
Qed.

(** Every goal read from the goals block has an empty team (filled in
    later by [_attach_goal_teams]), a non-empty player name that is
    itself neither a minute token [N'] nor starts with [Suci], and a
    non-negative minute. *)
Theorem parse_goals_block_goal_shape doc :
  Forall (fun g => team g = [] /\ nonempty (player g) = true /\
                   re_fullmatch GOAL_MINUTE_RE (player g) = None /\
                   starts_with (s_ "Suci") (player g) = false /\ (0 <= minute g)%Z)
         (_parse_goals_block doc).
Proof.
  unfold _parse_goals_block.
  destruct (find_string doc [] _) as [[p t]|]; [|constructor].
  unfold scan_goals.
  generalize (goals_walk doc 120 (match node_at doc (parent p) with
                                  | Some n => Some (parent p, n) | None => None end)).
  intros toks.
  assert (G : forall st,
     (forall l, fst st = Some l ->
        re_fullmatch GOAL_MINUTE_RE l = None /\ starts_with (s_ "Suci") l = false) ->
     Forall (fun g => team g = [] /\ nonempty (player g) = true /\
                      re_fullmatch GOAL_MINUTE_RE (player g) = None /\
                      starts_with (s_ "Suci") (player g) = false /\ (0 <= minute g)%Z) (snd st) ->
     Forall (fun g => team g = [] /\ nonempty (player g) = true /\
                      re_fullmatch GOAL_MINUTE_RE (player g) = None /\
                      starts_with (s_ "Suci") (player g) = false /\ (0 <= minute g)%Z)
            (snd (fold_left goal_step toks st))).
  { induction toks as [|tok toks IH]; intros st Hl Hg; [exact Hg|].
    simpl. destruct (goal_step_inv st tok Hl Hg) as [H1 H2]. apply IH; assumption. }
  apply G; [intros l H; discriminate | constructor].
Qed.

(** *** Player events *)

(** Every event of every player of a team block is a minute token [N']:
    its raw text is a non-empty run of digits followed by ['], and its
    minute is that number. *)
Theorem player_events_shape doc team_block :
  Forall (fun pl => Forall (fun e => exists ds, digit_str ds = true /\
                                                raw e = ds ++ ["'"%char] /\
                                                ev_minute e = int_of_digits ds) (events pl))
         (_parse_players_from_team_block doc team_block).
Proof.
  unfold _parse_players_from_team_block. apply Forall_map. apply Forall_forall.
  intros [h3p h3] _. unfold parse_player. simpl events.
  generalize (next_siblings doc h3p). intros sibs.
  induction sibs as [|[sp n] sibs IH]; simpl; [constructor|].
  destruct (has_tag _ n); [constructor|].
  apply Forall_app. split; [|exact IH].
  destruct (is_tag n); [|constructor].
  apply Forall_flat_map. apply Forall_forall. intros t _.
  destruct (re_fullmatch GOAL_MINUTE_RE t) as [m|] eqn:F; [|constructor].
  constructor; [|constructor]. simpl.
  destruct (goal_minute_fullmatch t m F) as [ds [D [-> G]]].
  exists ds. rewrite G. auto.
Qed.

(** *** scrape_match *)

Lemma lineups_keys {V} h a (v0 v1 v2 : V) :
  let K := if text_eqb h a then [h] else [h; a] in
  map fst (dict_set h v1 (dict_set a v0 (dict_set h v0 []))) = K /\
  map fst (dict_set a v2 (dict_set h v1 (dict_set a v0 (dict_set h v0 [])))) = K.
Proof.
  intros K.
  assert (K0 : map fst (dict_set a v0 (dict_set h v0 [])) = K).
  { unfold K. simpl. rewrite (text_eqb_sym a h). destruct (text_eqb h a); reflexivity. }
  assert (Hh : existsb (text_eqb h) K = true).
  { apply existsb_text_eqb_In. unfold K. destruct (text_eqb h a); left; reflexivity. }
  assert (Ha : existsb (text_eqb a) K = true).
  { apply existsb_text_eqb_In. unfold K. destruct (text_eqb h a) eqn:E.
    - apply text_eqb_spec in E. subst. left; reflexivity.
    - right; left; reflexivity. }
  assert (K1 : map fst (dict_set h v1 (dict_set a v0 (dict_set h v0 []))) = K).
  { rewrite dict_set_keys, K0, Hh. reflexivity. }
  split; [exact K1|]. rewrite dict_set_keys, K1, Ha. reflexivity.
Qed.

(** When [scrape_match] succeeds, the keys of [lineups] are exactly the
    home and the away team, in that order (a single key when the two
    names are equal). *)
Theorem scrape_match_lineup_keys u doc :
  match scrape_match u doc with
  | Ok m => map fst (lineups m) =
            if text_eqb (md_home_team m) (md_away_team m)
            then [md_home_team m] else [md_home_team m; md_away_team m]
  | Raise _ => True
  end.
Proof.
  unfold scrape_match. destruct (_parse_header_info doc) as [h|e]; [|exact I]. simpl.
  destruct (_parse_datetime_and_venue doc) as [[[v c] dt]|e]; [|exact I]. simpl.
  destruct (_iterate_team_blocks doc) as [|b0 [|b1 bs]]; simpl; [exact I| |].
  - apply (lineups_keys (home_team h) (away_team h) [] _ []).
  - apply (lineups_keys (home_team h) (away_team h) [] _ _).
Qed.

(** When [scrape_match] succeeds, every goal is credited to the home
    team, the away team or ["Unknown"]. *)
Theorem scrape_match_goal_teams u doc :
  match scrape_match u doc with
  | Ok m => Forall (fun g => team g = md_home_team m \/ team g = md_away_team m \/
                             team g = s_ "Unknown") (goals m)
  | Raise _ => True
  end.
Proof.
  unfold scrape_match. destruct (_parse_header_info doc) as [h|e]; [|exact I]. simpl.
  destruct (_parse_datetime_and_venue doc) as [[[v c] dt]|e]; [|exact I]. simpl.
  assert (T : forall L gs,
    map fst L = (if text_eqb (home_team h) (away_team h) then [home_team h]
                 else [home_team h; away_team h]) ->
    Forall (fun g => team g = home_team h \/ team g = away_team h \/ team g = s_ "Unknown")
           (_attach_goal_teams gs L)).
  { intros L gs HK. unfold _attach_goal_teams. apply Forall_map, Forall_forall. intros g _.
    simpl. destruct (dict_get (player g) (player_to_team L)) as [t|] eqn:E; [|auto].
    apply dict_get_player_to_team_key in E. rewrite HK in E.
    destruct (text_eqb _ _); simpl in E; intuition congruence. }
  destruct (_iterate_team_blocks doc) as [|b0 [|b1 bs]]; simpl; [exact I| |].
  - apply T. apply (lineups_keys (home_team h) (away_team h) [] _ []).
  - apply T. apply (lineups_keys (home_team h) (away_team h) [] _ _).
Qed.


(** *** Player stats *)

Lemma dict_set_In_any {V} k (v : V) d k' x :
  In (k', x) (dict_set k v d) -> (k' = k /\ x = v) \/ In (k', x) d.
Proof.
  induction d as [|[k0 v0] d IH]; simpl; intros H.
  - destruct H as [H|[]]. inversion H; subst. left; auto.
  - destruct (text_eqb k k0) eqn:E.
    + destruct H as [H|H]; [|right; right; exact H].
      inversion H; subst. apply text_eqb_spec in E. left; auto.
    + destruct H as [H|H]; [right; left; exact H|].
      destruct (IH H) as [?|?]; [left|right; right]; assumption.
Qed.

Lemma dict_setdefault_In {V} k (v : V) d k' x :
  In (k', x) (dict_setdefault k v d) -> In (k', x) d \/ (k' = k /\ x = v).
Proof.
  induction d as [|[k0 v0] d IH]; simpl; intros H.
  - destruct H as [H|[]]. inversion H; subst. right; auto.
  - destruct (text_eqb k k0); [left; exact H|].
    destruct H as [H|H]; [left; left; exact H|].
    destruct (IH H) as [?|?]; [left; right|right]; assumption.
Qed.

Lemma dict_setdefault_keys {V} k (v : V) d :
  map fst (dict_setdefault k v d) =
  if existsb (text_eqb k) (map fst d) then map fst d else map fst d ++ [k].
Proof.
  induction d as [|[k' v'] d IH]; simpl; [reflexivity|].
  destruct (text_eqb k k') eqn:E; simpl; [reflexivity|].
  rewrite IH. destruct (existsb _ _); reflexivity.
Qed.

Lemma dict_setdefault_NoDup {V} k (v : V) d :
  NoDup (map fst d) -> NoDup (map fst (dict_setdefault k v d)).
Proof.
  intros H. rewrite dict_setdefault_keys. destruct (existsb (text_eqb k) (map fst d)) eqn:E; [exact H|].
  apply NoDup_app; [exact H | repeat constructor; auto |].
  intros y Hy [<-|[]]. apply (proj2 (existsb_text_eqb_In k _)) in Hy. congruence.
Qed.

Lemma dict_get_In {V} k (d : list (text * V)) v : dict_get k d = Some v -> In (k, v) d.
Proof.
  induction d as [|[k0 v0] d IH]; simpl; intros H; [discriminate|].
  destruct (text_eqb k k0) eqn:E; [|right; apply IH, H].
  apply text_eqb_spec in E. inversion H; subst. left; reflexivity.
Qed.

Lemma dict_update_nonneg (d kvs : pdict) :
  Forall (fun kv => pint_nonneg (snd kv)) d -> Forall (fun kv => pint_nonneg (snd kv)) kvs ->
  Forall (fun kv => pint_nonneg (snd kv)) (dict_update d kvs).
Proof.
  unfold dict_update. revert d. induction kvs as [|[k v] kvs IH]; intros d Hd Hk; [exact Hd|].
  inversion Hk as [|? ? Hkv Hk']; subst. simpl. apply IH; [|exact Hk'].
  apply Forall_forall. intros [k' x] Hin.
  destruct (dict_set_In_any _ _ _ _ _ Hin) as [[-> ->]|H]; [exact Hkv|].
  exact (proj1 (Forall_forall _ _) Hd _ H).
Qed.

Lemma stats_update_In nm kvs (st : list (text * pdict)) :
  NoDup (map fst st) ->
  NoDup (map fst (stats_update nm kvs st)) /\
  forall k d, In (k, d) (stats_update nm kvs st) ->
    (k = nm /\ exists d0, (In (nm, d0) st \/ d0 = []) /\ d = dict_update d0 kvs) \/
    (k <> nm /\ In (k, d) st).
Proof.
  intros Hnd. unfold stats_update.
  pose proof (dict_setdefault_NoDup nm (@nil (text * pyval)) st Hnd) as Hnd'.
  split; [apply dict_set_NoDup; exact Hnd'|].
  intros k d H. destruct (dict_set_In _ _ _ Hnd' _ _ H) as [[-> ->]|[Hk Hin]].
  - left. split; [reflexivity|].
    destruct (dict_get nm (dict_setdefault nm [] st)) as [d0|] eqn:E.
    + exists d0. split; [|reflexivity]. apply dict_get_In in E.
      destruct (dict_setdefault_In _ _ _ _ _ E) as [?|[_ ->]]; [left|right]; auto.
    + exists []. auto.
  - right. split; [exact Hk|].
    destruct (dict_setdefault_In _ _ _ _ _ Hin) as [?|[? _]]; [assumption|contradiction].
Qed.

Lemma old_value_nonneg nm k (st : list (text * pdict)) :
  (forall k' d, In (k', d) st -> Forall (fun kv => pint_nonneg (snd kv)) d) ->
  pint_nonneg (match dict_get nm (dict_setdefault nm [] st) with
               | Some d => match dict_get k d with Some v => v | None => PNone end
               | None => PNone
               end).
Proof.
  intros H. destruct (dict_get nm (dict_setdefault nm [] st)) as [d|] eqn:E; [|exact I].
  destruct (dict_get k d) as [v|] eqn:F; [|exact I].
  apply dict_get_In in E, F.
  assert (Hd : Forall (fun kv => pint_nonneg (snd kv)) d).
  { destruct (dict_setdefault_In _ _ _ _ _ E) as [Hin|[_ ->]]; [exact (H _ _ Hin)|constructor]. }
  exact (proj1 (Forall_forall _ _) Hd _ F).
Qed.

Lemma final_update_inv nm g mi (st : list (text * pdict)) :
  NoDup (map fst st) ->
  (forall k d, In (k, d) st ->
     Forall (fun kv => pint_nonneg (snd kv)) d /\
     (k <> nm -> dict_get (s_ "full_name") d = Some (PStr k) /\
                 dict_get (s_ "goals") d <> None /\ dict_get (s_ "minutes") d <> None)) ->
  pint_nonneg g -> pint_nonneg mi ->
  stats_inv (stats_update nm [(s_ "full_name", PStr nm); (s_ "goals", g); (s_ "minutes", mi)] st).
Proof.
  intros Hnd Hent Hg Hm.
  destruct (stats_update_In nm [(s_ "full_name", PStr nm); (s_ "goals", g); (s_ "minutes", mi)]
              st Hnd) as [Hnd' Hin].
  split; [exact Hnd'|]. intros k d H.
  destruct (Hin k d H) as [[-> [d0 [Hd0 ->]]]|[Hk Hkd]].
  - assert (N : Forall (fun kv => pint_nonneg (snd kv))
                  (dict_update d0 [(s_ "full_name", PStr nm); (s_ "goals", g); (s_ "minutes", mi)])).
    { apply dict_update_nonneg; [|repeat constructor; assumption].
      destruct Hd0 as [Hd0| ->]; [exact (proj1 (Hent _ _ Hd0))|constructor]. }
    refine (conj _ (conj _ (conj _ N)));
      unfold dict_update; simpl fold_left; rewrite !dict_get_set; [reflexivity|discriminate|discriminate].
  - destruct (Hent k d Hkd) as [Hn Hq]. destruct (Hq Hk) as [? [? ?]]. auto.
Qed.

Lemma stat_step_inv ht bt st nm : stats_inv st -> stats_inv (stat_step ht bt st nm).
Proof.
  intros [Hnd Hent]. unfold stat_step. cbv zeta.
  match goal with |- stats_inv (stats_update nm _ ?s) => set (st1 := s) end.
  assert (H1 : NoDup (map fst st1) /\
               forall k d, In (k, d) st1 ->
                 Forall (fun kv => pint_nonneg (snd kv)) d /\
                 (k <> nm -> dict_get (s_ "full_name") d = Some (PStr k) /\
                             dict_get (s_ "goals") d <> None /\ dict_get (s_ "minutes") d <> None)).
  { unfold st1. destruct (_ && _).
    - match goal with |- context [stats_update nm ?kvs st] =>
        destruct (stats_update_In nm kvs st Hnd) as [N E] end.
      split; [exact N|]. intros k d Hkd.
      destruct (E k d Hkd) as [[-> [d0 [Hd0 ->]]]|[Hk Hin]].
      + split; [|intros C; contradiction].
        apply dict_update_nonneg.
        * destruct Hd0 as [Hd0| ->]; [exact (proj2 (proj2 (proj2 (Hent _ _ Hd0))))|constructor].
        * destruct (findall_numbers bt) as [|a [|b l]]; simpl; repeat constructor;
            simpl; try lia; apply int_of_digits_nonneg.
      + destruct (Hent k d Hin) as [? [? [? ?]]]. auto.
    - split; [exact Hnd|]. intros k d Hkd. destruct (Hent k d Hkd) as [? [? [? ?]]]. auto. }
  destruct H1 as [N1 E1]. apply final_update_inv; [exact N1|exact E1| |].
  - destruct (text_eqb ht (s_ "Strijelci")).
    + destruct (findall_numbers bt) as [|a l]; simpl; [lia|apply int_of_digits_nonneg].
    + apply old_value_nonneg. intros k d Hkd. exact (proj1 (E1 k d Hkd)).
  - destruct (text_eqb ht (s_ "Strijelci")); [apply old_value_nonneg; intros k d Hkd; exact (proj1 (E1 k d Hkd))|].
    destruct (text_eqb ht (s_ "Nastupi / minute"));
      [|apply old_value_nonneg; intros k d Hkd; exact (proj1 (E1 k d Hkd))].
    destruct (findall_numbers bt) as [|a [|b l]];
      try (apply old_value_nonneg; intros k d Hkd; exact (proj1 (E1 k d Hkd))).
    simpl. apply int_of_digits_nonneg.
Qed.

Lemma sib_stats_inv ht doc st sib : stats_inv st -> stats_inv (sib_stats ht doc st sib).
Proof.
  unfold sib_stats. generalize (find_all_tag doc (fst sib) (s_ "a")). intros l.
  revert st. induction l as [|a l IH]; intros st H; simpl; [exact H|].
  apply IH. destruct (nonempty _); [apply stat_step_inv|]; exact H.
Qed.

Lemma sibs_stats_inv ht doc sibs st : stats_inv st -> stats_inv (sibs_stats ht doc sibs st).
Proof.
  revert st. induction sibs as [|sib sibs IH]; intros st H; [exact H|]. cbn [sibs_stats].
  match goal with |- context [if starts_with ?a ?b then _ else _] => destruct (starts_with a b) end; [exact H|]. apply IH, sib_stats_inv, H.
Qed.

Lemma parse_player_stats_inv doc : stats_inv (parse_player_stats doc).
Proof.
  unfold parse_player_stats.
  assert (H0 : forall hs st, stats_inv st -> stats_inv
    (fold_left (fun stats heading_text =>
                  match stats_heading doc heading_text with
                  | Some hp => sibs_stats heading_text doc
                                 (filter (fun pn => is_tag (snd pn)) (next_siblings doc hp)) stats
                  | None => stats
                  end) hs st)).
  { intros hs. induction hs as [|h hs IH]; intros st H; simpl; [exact H|].
    apply IH. destruct (stats_heading doc h); [apply sibs_stats_inv|]; exact H. }
  apply H0. split; [constructor|intros k d []].
Qed.

(** [parse_player_stats] returns one entry per player name (the keys are
    distinct), and each entry's dict records [full_name] equal to its
    key and has both a ["goals"] and a ["minutes"] key (possibly [None]),
    whichever sections the player appeared in. *)
Theorem parse_player_stats_entries doc :
  NoDup (map fst (parse_player_stats doc)) /\
  forall k d, In (k, d) (parse_player_stats doc) ->
    dict_get (s_ "full_name") d = Some (PStr k) /\
    dict_get (s_ "goals") d <> None /\ dict_get (s_ "minutes") d <> None.
Proof.
  destruct (parse_player_stats_inv doc) as [N E]. split; [exact N|].
  intros k d H. destruct (E k d H) as [? [? [? _]]]. auto.
Qed.

(** Every integer that [parse_player_stats] stores (goals, minutes,
    yellow and red cards) is non-negative: each comes from [int] of a
    run of digits or is 0. *)
Theorem parse_player_stats_nonneg doc k d key z :
  In (k, d) (parse_player_stats doc) -> dict_get key d = Some (PInt z) -> (0 <= z)%Z.
Proof.
  intros H G. destruct (parse_player_stats_inv doc) as [_ E].
  destruct (E k d H) as [_ [_ [_ F]]]. apply dict_get_In in G.
  exact (proj1 (Forall_forall _ _) F _ G).
Qed.

Lemma parse_player_stats_nonneg_witness :
  dict_get (s_ "yellow_cards")
    (match dict_get (s_ "Ivo") (parse_player_stats stats_page_doc) with
     | Some d => d | None => [] end) = Some (PInt 2) /\ (0 <= 2)%Z.
Proof.
  split; [vm_compute; reflexivity|].
  apply (parse_player_stats_nonneg stats_page_doc (s_ "Ivo")
           (match dict_get (s_ "Ivo") (parse_player_stats stats_page_doc) with
            | Some d => d | None => [] end) (s_ "yellow_cards") 2).
  - vm_compute. left. reflexivity.
  - vm_compute. reflexivity.
Defined.

(** *** Competition meta *)

Lemma mt_complete_sf r w c c' :
  M r w c c' -> star_free r = true -> forall s k, mt r (w ++ s) c k = k s c'.
Proof.
  induction 1 as [p x c Hp|g p w c _|r1 r2 w1 w2 c c1 c2 _ IH1 _ IH2|n r w c c1 _ IH];
    simpl; intros Hsf s k.
  - rewrite Hp. reflexivity.
  - discriminate.
  - apply andb_true_iff in Hsf as [H1 H2]. rewrite <- app_assoc, IH1 by exact H1. apply IH2, H2.
  - rewrite IH by exact Hsf. rewrite firstn_cap. reflexivity.
Qed.

Lemma re_search_from_sound r i s j m :
  re_search_from r i s = Some (j, m) -> exists u v, s = u ++ v /\ re_match r v = Some m.
Proof.
  revert i. induction s as [|x s IH]; intros i H; simpl in H.
  - destruct (re_match r []) eqn:E; [|discriminate]. inversion H; subst. exists [], []. auto.
  - destruct (re_match r (x :: s)) eqn:E.
    + inversion H; subst. exists [], (x :: s). auto.
    + destruct (IH _ H) as [u [v [-> Hv]]]. exists (x :: u), v. auto.
Qed.

Lemma re_search_from_complete r i u v m :
  re_match r v = Some m -> exists j m', re_search_from r i (u ++ v) = Some (j, m').
Proof.
  revert i. induction u as [|x u IH]; intros i H; simpl.
  - destruct v as [|y v]; simpl; rewrite H; eexists; eexists; reflexivity.
  - destruct (re_match r (x :: u ++ v)); [eexists; eexists; reflexivity|]. apply IH, H.
Qed.

Lemma lstrip_keep u w v :
  w <> [] -> Forall (fun c => is_space c = false) w -> exists u1, lstrip (u ++ w ++ v) = u1 ++ w ++ v.
Proof.
  intros Hw Hs. induction u as [|x u IH]; simpl.
  - destruct w as [|a w]; [contradiction|]. inversion Hs; subst.
    exists []. apply lstrip_nonspace. assumption.
  - destruct (is_space x); [exact IH|]. exists (x :: u). reflexivity.
Qed.

Lemma strip_keep u w v :
  w <> [] -> Forall (fun c => is_space c = false) w ->
  exists u1 v1, strip (u ++ w ++ v) = u1 ++ w ++ v1.
Proof.
  intros Hw Hs. unfold strip, rstrip.
  destruct (lstrip_keep u w v Hw Hs) as [u1 ->].
  rewrite !rev_app_distr, <- app_assoc.
  destruct (lstrip_keep (rev v) (rev w) (rev u1)) as [v2 E].
  - intros H. apply Hw. rewrite <- (rev_involutive w), H. reflexivity.
  - apply Forall_rev. exact Hs.
  - rewrite E, !rev_app_distr, !rev_involutive, <- app_assoc. exists u1, (rev v2). reflexivity.
Qed.

Lemma season_re_inv w m :
  M SEASON_RE w [] m -> w <> [] /\ Forall (fun c => is_space c = false) w.
Proof.
  unfold SEASON_RE, rseq, dig, lit. intros H. inv_M.
  match goal with Hc : ch_eqb ?a "/"%char = true |- _ => apply ch_eqb_true in Hc; subst a end.
  split; [discriminate|].
  simpl. repeat constructor; first [apply digit_not_space; assumption | reflexivity].
Qed.

Lemma matches_search_strip_season t :
  matches_search SEASON_RE t = true -> matches_search SEASON_RE (strip t) = true.
Proof.
  unfold matches_search, re_search. intros H.
  destruct (re_search_from SEASON_RE 0 t) as [[j m]|] eqn:E; [|discriminate].
  destruct (re_search_from_sound _ _ _ _ _ E) as [u [v [-> Hv]]].
  destruct (re_match_sound _ _ _ Hv) as [w [v' [-> Mw]]].
  destruct (season_re_inv _ _ Mw) as [Hne Hs].
  destruct (strip_keep u w v' Hne Hs) as [u1 [v1 ->]].
  assert (Hm : re_match SEASON_RE (w ++ v1) = Some m).
  { unfold re_match. apply (mt_complete_sf _ _ _ _ Mw). reflexivity. }
  destruct (re_search_from_complete SEASON_RE 0 u1 (w ++ v1) m Hm) as [j' [m' ->]].
  reflexivity.
Qed.

(** The season label of [parse_competition_meta], when there is one,
    still contains a [dddd/dddd] season after [strip()]: stripping only
    removes white space, never part of the match. *)
Theorem competition_season_label_matches base_url doc s :
  season_label (parse_competition_meta base_url doc) = Some s ->
  matches_search SEASON_RE s = true.
Proof.
  unfold parse_competition_meta. simpl.
  destruct (find_string doc [] (matches_search SEASON_RE)) as [[p t]|] eqn:E; [|discriminate].
  intros H. injection H as <-. apply matches_search_strip_season.
  unfold find_string in E. destruct (find_all_string doc [] _) as [|pt l] eqn:F; [discriminate|].
  simpl in E. injection E as ->. apply (find_all_string_pred doc [] _ (p, t)). rewrite F. left. reflexivity.
Qed.

Lemma competition_season_label_matches_witness :
  matches_search SEASON_RE (s_ "Sezona 2025/2026") = true.
Proof.
  apply (competition_season_label_matches (s_ "u") stats_page_doc). vm_compute. reflexivity.
Defined.

Lemma parse_teams_fallback_entries_witness :
  parse_teams concat_join (fun l => l) (s_ "u") club_blocks_doc <> [] /\
  Forall (fun t => turl t = None /\ crest t = None /\ hns_id t = None /\
                   club_prefix_re (tname t) = true)
         (parse_teams concat_join (fun l => l) (s_ "u") club_blocks_doc).
Proof.
  split; [vm_compute; discriminate|].
  apply (parse_teams_fallback_entries concat_join (fun l => l) (s_ "u") club_blocks_doc).
  - intros l x H. exact H.
  - vm_compute. reflexivity.
Defined.

